(** * Beacon store: a shallow embedding of [createStore], [compose] and
      [localStoragePlugin], with the properties of their specification.

    The TypeScript sources are the store factory (store.ts, with its test
    store.test.ts), the middleware composer (compose.ts), the persistence
    middleware (localStorage.ts) and the types they share (types.ts).

    Modelling conventions.
    - A JavaScript object used as a record is the association list of its
      own enumerable string-keyed properties, in [for ... in] order, which
      is insertion order for names that are not array indices.  What an
      object inherits from [Object.prototype] is the list
      [inherited_names]: the operator [in] and a property read see these
      names too, [for ... in] and a spread do not.  An assignment to the
      key [__proto__] would set the prototype of an object; records are
      taken not to have that key, and the statements that say that a
      store is returned ask for it ([proto_free]).
    - A signal is a mutable cell.  Cells live in a heap; [signal(v)]
      allocates one, and every holder of the cell (the [stateSignals]
      object, the store object, the closures of actions, derivations and
      of [getStateSnapshot]) holds the same location.
    - Code that can throw runs in the monad [M]: a state transformer on
      the [World] returning either a normal completion or a thrown value.
    - A closure is represented by what it captures.
    - The signals library is a collaborator: [computed] is read as the
      value of its function on the current cells, [effect] as running its
      callback once when it is registered. *)

From Stdlib Require Import ZArith.
From Stdlib Require QArith Lqa Sorted.
From stdpp Require Import base list strings.

Local Open Scope string_scope.

(** ** JavaScript values and objects *)

Module Js.

Inductive value : Type :=
| VUndefined
| VNull
| VBool (b : bool)
| VNum (n : Z)
| VStr (s : string).

(** An object: own enumerable properties in enumeration order. *)
Definition obj (A : Type) : Type := list (string * A).

(** [o[k]] *)
Fixpoint obj_get {A} (k : string) (o : obj A) : option A :=
  match o with
  | [] => None
  | (k', v) :: o' => if String.eqb k k' then Some v else obj_get k o'
  end.

(** [Object.hasOwn(o, k)]: [k] is an own property of [o]. *)
Definition obj_has {A} (k : string) (o : obj A) : bool :=
  match obj_get k o with Some _ => true | None => false end.

(** [o[k] = v]: an existing property keeps its place, a new one is
    enumerated last. *)
Fixpoint obj_set {A} (k : string) (v : A) (o : obj A) : obj A :=
  match o with
  | [] => [(k, v)]
  | (k', v') :: o' =>
      if String.eqb k k' then (k, v) :: o' else (k', v') :: obj_set k v o'
  end.

Definition obj_keys {A} (o : obj A) : list string := o.*1.

(** [{ ...into, ...src }] where [into] has already been built. *)
Definition obj_spread {A} (src : obj A) (into : obj A) : obj A :=
  fold_left (fun acc kv => obj_set kv.1 kv.2 acc) src into.

(** An object literal or a parsed record never repeats a key. *)
Fixpoint distinct_keys (ks : list string) : bool :=
  match ks with
  | [] => true
  | k :: ks' => negb (existsb (String.eqb k) ks') && distinct_keys ks'
  end.

Definition well_formed {A} (o : obj A) : bool := distinct_keys (obj_keys o).

(** Truthiness of a string, as tested by [if (stored)]. *)
Definition truthy_string (s : string) : bool :=
  match s with EmptyString => false | _ => true end.

(** What can be thrown: an [Error] with its message, or any other value.
    A value that is not an [Error] is represented by what the handlers of
    this code can see of it, the outcome of [String(value)]: its text, or
    nothing when the conversion itself throws (an object that has neither
    [toString] nor [valueOf]). *)
Inductive exn : Type :=
| JsError (message : string)
| JsThrown (text : option string).

(** The property names of [Object.prototype], which an object created by
    a literal inherits.  None of them is enumerable. *)
Definition inherited_names : list string :=
  ["constructor"; "__defineGetter__"; "__defineSetter__"; "hasOwnProperty";
   "__lookupGetter__"; "__lookupSetter__"; "isPrototypeOf";
   "propertyIsEnumerable"; "toString"; "valueOf"; "__proto__";
   "toLocaleString"].

Definition inherited (k : string) : bool :=
  existsb (String.eqb k) inherited_names.

(** [k in o], for an object [o] created by a literal: own or inherited. *)
Definition js_in {A} (k : string) (o : obj A) : bool :=
  obj_has k o || inherited k.

End Js.

Export Js.

(** ** The world and the monad of effects *)

Module Runtime.

(** [window.localStorage]: its items, and whether access is denied (in
    which case every call throws). *)
Record LocalStorage : Type := mkLocalStorage {
  items : obj string;
  denied : bool
}.

Record World : Type := mkWorld {
  heap : list value;                 (* the signals created so far *)
  localStorage : LocalStorage;
  console : list (string * string);  (* console.error(label, text) calls *)
  effects : nat                      (* callbacks registered with effect() *)
}.

Inductive completion (A : Type) : Type :=
| Normal (a : A)
| Throw (e : exn).
Arguments Normal {A} a.
Arguments Throw {A} e.

(** [error instanceof Error ? error.message : String(error)]: the
    conversion of a thrown value can itself throw. *)
Definition error_text (e : exn) : completion string :=
  match e with
  | JsError m => Normal m
  | JsThrown (Some text) => Normal text
  | JsThrown None => Throw (JsError "Cannot convert object to primitive value")
  end.

Definition M (A : Type) : Type := World -> completion A * World.

Definition ret {A} (a : A) : M A := fun w => (Normal a, w).

Definition bind {A B} (m : M A) (k : A -> M B) : M B :=
  fun w =>
    match m w with
    | (Normal a, w') => k a w'
    | (Throw e, w') => (Throw e, w')
    end.

Definition throw {A} (e : exn) : M A := fun w => (Throw e, w).

(** [try { body } catch (error) { handler }] *)
Definition try_catch {A} (body : M A) (handler : exn -> M A) : M A :=
  fun w =>
    match body w with
    | (Normal a, w') => (Normal a, w')
    | (Throw e, w') => handler e w'
    end.

(** The outcome of a call to a caller-supplied function without effects
    on the world (serialize, deserialize). *)
Definition lift {A} (c : completion A) : M A := fun w => (c, w).

Fixpoint foldM {A B} (f : B -> A -> M B) (l : list A) (b : B) : M B :=
  match l with
  | [] => ret b
  | x :: l' => bind (f b x) (foldM f l')
  end.

Definition set_heap (h : list value) (w : World) : World :=
  mkWorld h (localStorage w) (console w) (effects w).

Definition set_items (it : obj string) (w : World) : World :=
  mkWorld (heap w) (mkLocalStorage it (denied (localStorage w)))
          (console w) (effects w).

Definition loc : Type := nat.

(** [signal(v)]: a fresh cell holding [v]. *)
Definition signal (v : value) : M loc :=
  fun w => (Normal (length (heap w)), set_heap (heap w ++ [v]) w).

(** [s.value] of a signal. *)
Definition peek (l : loc) (w : World) : value :=
  default VUndefined (heap w !! l).

Definition read_signal (l : loc) : M value := fun w => (Normal (peek l w), w).

(** [s.value = v] *)
Definition write_signal (l : loc) (v : value) : M unit :=
  fun w => (Normal tt, set_heap (<[l := v]> (heap w)) w).

(** [console.error(label, text)] *)
Definition console_error (label text : string) : M unit :=
  fun w =>
    (Normal tt,
     mkWorld (heap w) (localStorage w) (console w ++ [(label, text)]) (effects w)).

(** [window.localStorage.getItem(name)]: [null] for a missing item. *)
Definition getItem (name : string) : M (option string) :=
  fun w =>
    if denied (localStorage w) then (Throw (JsError "SecurityError"), w)
    else (Normal (obj_get name (items (localStorage w))), w).

(** [window.localStorage.setItem(name, blob)] *)
Definition setItem (name blob : string) : M unit :=
  fun w =>
    if denied (localStorage w) then (Throw (JsError "SecurityError"), w)
    else (Normal tt, set_items (obj_set name blob (items (localStorage w))) w).

(** [effect(cb)]: the callback is registered and run once at once; what
    that run throws is thrown by [effect].  Its later runs are the
    business of the signals library. *)
Definition effect (cb : M unit) : M unit :=
  fun w =>
    cb (mkWorld (heap w) (localStorage w) (console w) (S (effects w))).

End Runtime.

Export Runtime.

Notation "'let!' x ':=' c1 'in' c2" := (bind c1 (fun x => c2))
  (at level 10, x name, c1 at level 100, c2 at level 200).
Notation "c1 ';;' c2" := (bind c1 (fun _ => c2))
  (at level 100, c2 at level 200, right associativity).

(** ** The store factory (store.ts) *)

Module StoreLib.

(** A derivation [(state) => ...] reads the signals it is given. *)
Definition derivedFn : Type := obj loc -> list value -> value.

(** A configured action [(state, ...args) => ...]. *)
Definition rawAction : Type := obj loc -> list value -> M value.

(** The closure [(...args) => { config.actions[actionName](stateSignals, ...args); }]. *)
Record boundAction : Type := mkBound {
  bound_raw : rawAction;
  bound_state : obj loc
}.

(** What a property of the store object can hold. *)
Inductive prop : Type :=
| PSignal (l : loc)
| PComputed (f : derivedFn) (stateSignals : obj loc)
| PActions (acts : obj boundAction)
| PSnapshot (stateSignals : obj loc).

Definition Store : Type := obj prop.

Record StoreConfig : Type := mkConfig {
  initialState : obj value;
  derived : option (obj derivedFn);
  actions : option (obj rawAction);
  onStoreCreated : option (Store -> M unit)
}.

Record SnapshotOptions : Type := { withDerived : bool }.

Definition conflict_message (key : string) : string :=
  "Derived key '" ++ key ++ "' conflicts with state signal".

(** Line 30: [stateSignals[key] = signal(config.initialState[key])]. *)
Definition signal_step (stateSignals : obj loc) (kv : string * value)
  : M (obj loc) :=
  let! s := signal kv.2 in
  ret (obj_set kv.1 s stateSignals).

(** Lines 28-31: one signal per property of [config.initialState]. *)
Definition createStateSignals (init : obj value) : M (obj loc) :=
  foldM signal_step init [].

(** Lines 38-44: the key must not be [in stateSignals]; then the computed
    is stored. *)
Definition derived_step (stateSignals : obj loc) (derived : obj prop)
    (kf : string * derivedFn) : M (obj prop) :=
  if js_in kf.1 stateSignals
  then throw (JsError (conflict_message kf.1))
  else ret (obj_set kf.1 (PComputed kf.2 stateSignals) derived).

(** Lines 34-46: one computed per derivation, unless its key is taken. *)
Definition createDerived (d : option (obj derivedFn)) (stateSignals : obj loc)
  : M (obj prop) :=
  match d with
  | None => ret []
  | Some d => foldM (derived_step stateSignals) d []
  end.

(** Lines 49-59: every configured action closed over [stateSignals]. *)
Definition bindActions (a : option (obj rawAction)) (stateSignals : obj loc)
  : obj boundAction :=
  match a with
  | None => []
  | Some a =>
      fold_left (fun acts kf => obj_set kf.1 (mkBound kf.2 stateSignals) acts)
                a []
  end.

(** Lines 67-73.  The function has no parameter: an argument passed to it
    is dropped. *)
Definition getStateSnapshot (stateSignals : obj loc)
    (_opt : option SnapshotOptions) : M (obj value) :=
  fun w =>
    (Normal (fold_left (fun state kl => obj_set kl.1 (peek kl.2 w) state)
                       stateSignals []),
     w).

(** Line 75: [{ ...stateSignals, ...derived, actions, getStateSnapshot }]. *)
Definition assemble (stateSignals : obj loc) (derived : obj prop)
    (acts : obj boundAction) : Store :=
  obj_set "getStateSnapshot" (PSnapshot stateSignals)
    (obj_set "actions" (PActions acts)
       (obj_spread derived
          (obj_spread (map (fun kl => (kl.1, PSignal kl.2)) stateSignals) []))).

(** Lines 16-76.  [config.onStoreCreated] is not read here. *)
Definition createStore (config : StoreConfig) : M Store :=
  let! stateSignals := createStateSignals (initialState config) in
  let! derived := createDerived (derived config) stateSignals in
  let acts := bindActions (actions config) stateSignals in
  ret (assemble stateSignals derived acts).

(** *** Using a store *)

(** Calling a bound action: the raw action runs on the captured signals,
    and the arrow function's block body returns nothing. *)
Definition call_bound (b : boundAction) (args : list value) : M value :=
  bound_raw b (bound_state b) args ;; ret VUndefined.

Definition not_a_function (what : string) : exn :=
  JsError (what ++ " is not a function").

Section Calling.

(** What a method inherited from [Object.prototype] does when it is
    called on the action map belongs to the runtime. *)
Variable Object_method : obj boundAction -> string -> list value -> M value.

(** [store.actions.name(...args)]: a configured action, else a method the
    action map inherits, else nothing that can be called. *)
Definition store_action (store : Store) (name : string) (args : list value)
  : M value :=
  match obj_get "actions" store with
  | Some (PActions acts) =>
      match obj_get name acts with
      | Some b => call_bound b args
      | None =>
          if inherited name then Object_method acts name args
          else throw (not_a_function ("store.actions." ++ name))
      end
  | _ => throw (not_a_function ("store.actions." ++ name))
  end.

End Calling.

(** [store.getStateSnapshot(opt)] *)
Definition store_getStateSnapshot (store : Store)
    (opt : option SnapshotOptions) : M (obj value) :=
  match obj_get "getStateSnapshot" store with
  | Some (PSnapshot stateSignals) => getStateSnapshot stateSignals opt
  | _ => throw (not_a_function "store.getStateSnapshot")
  end.

(** [p.value] for a property [p] of the store. *)
Definition prop_value (p : prop) : M value :=
  match p with
  | PSignal l => read_signal l
  | PComputed f stateSignals => fun w => (Normal (f stateSignals (heap w)), w)
  | PActions _ => ret VUndefined
  | PSnapshot _ => ret VUndefined
  end.

End StoreLib.

Export StoreLib.

(** ** Middleware (compose.ts, localStorage.ts) *)

Module Middleware.

(** *** compose.ts *)

Definition middleware : Type := StoreConfig -> M StoreConfig.

(** A transform without effects. *)
Definition pure (f : StoreConfig -> StoreConfig) : middleware :=
  fun config => ret (f config).

(** [middlewares.reduce((acc, middleware) => middleware(acc), config)] *)
Definition compose (middlewares : list middleware) : middleware :=
  fun config => foldM (fun acc middleware => middleware acc) middlewares config.

(** *** localStorage.ts *)

Record LocalStorageOptions : Type := mkOptions {
  name : string;
  merge : option bool;
  serialize : option (obj value -> completion string);
  deserialize : option (string -> completion (obj value))
}.

Definition load_label : string := "Failed to load state from localStorage:".
Definition save_label : string := "Failed to save state to localStorage:".

Section Persistence.

(** The defaults [JSON.stringify] and [JSON.parse] belong to the runtime. *)
Variable JSON_stringify : obj value -> completion string.
Variable JSON_parse : string -> completion (obj value).

(** Lines 96-107: the stored record, or the empty one. *)
Definition loadStoredState (name : string)
    (deserialize : string -> completion (obj value)) : M (obj value) :=
  try_catch
    (let! stored := getItem name in
     match stored with
     | Some blob => if truthy_string blob then lift (deserialize blob) else ret []
     | None => ret []
     end)
    (fun error =>
       let! text := lift (error_text error) in
       console_error load_label text ;;
       ret []).

(** Lines 98-100 seen from outside: the error thrown while reading or
    deserializing the stored blob, if one is. *)
Definition hydration_error (name : string)
    (deserialize : string -> completion (obj value)) (w : World) : option exn :=
  if denied (localStorage w) then Some (JsError "SecurityError")
  else match obj_get name (items (localStorage w)) with
       | Some blob =>
           if truthy_string blob
           then match deserialize blob with
                | Throw e => Some e
                | Normal _ => None
                end
           else None
       | None => None
       end.

(** Lines 110-112. *)
Definition mergeInitialState (merge : bool) (base storedState : obj value)
  : obj value :=
  if merge then obj_spread storedState (obj_spread base [])
  else obj_spread storedState [].

(** Lines 119-129. *)
Definition saveToStorage (name : string)
    (serialize : obj value -> completion string) (store : Store) : M unit :=
  try_catch
    (let! snapshot := store_getStateSnapshot store (Some {| withDerived := false |}) in
     let! blob := lift (serialize snapshot) in
     setItem name blob)
    (fun error =>
       let! text := lift (error_text error) in
       console_error save_label text).

(** Lines 132-138: the body of the effect. *)
Definition syncBody (name : string)
    (serialize : obj value -> completion string)
    (initialState : obj value) (store : Store) : M unit :=
  foldM (fun _ kv =>
           (let! stateToPersist :=
              (if js_in kv.1 store
               then match obj_get kv.1 store with
                    | Some p => let! v := prop_value p in ret [(kv.1, v)]
                    | None => ret [(kv.1, VUndefined)]
                    end
               else ret []) in
            saveToStorage name serialize store))
        initialState tt.

(** Lines 119-139: what the hook does for persistence. *)
Definition persistenceWiring (name : string)
    (serialize : obj value -> completion string)
    (initialState : obj value) (store : Store) : M unit :=
  effect (syncBody name serialize initialState store).

(** Lines 117-145. *)
Definition newOnStoreCreated (originalOnStoreCreated : option (Store -> M unit))
    (name : string) (serialize : obj value -> completion string)
    (initialState : obj value) (store : Store) : M unit :=
  persistenceWiring name serialize initialState store ;;
  match originalOnStoreCreated with
  | Some original => original store
  | None => ret tt
  end.

Definition localStoragePlugin (config : StoreConfig)
    (options : LocalStorageOptions) : M StoreConfig :=
  let name := name options in
  let merge := default true (merge options) in
  let serialize := default JSON_stringify (serialize options) in
  let deserialize := default JSON_parse (deserialize options) in
  let! storedState := loadStoredState name deserialize in
  let initialState := mergeInitialState merge (initialState config) storedState in
  let originalOnStoreCreated := onStoreCreated config in
  ret (mkConfig initialState (derived config) (actions config)
         (Some (newOnStoreCreated originalOnStoreCreated name serialize
                  initialState))).

End Persistence.

End Middleware.

Export Middleware.

(** ** Sample programs *)

Module Samples.

Definition world0 : World := mkWorld [] (mkLocalStorage [] false) [] 0.

Definition upper_ascii (c : Ascii.ascii) : Ascii.ascii :=
  let n := Ascii.nat_of_ascii c in
  if (97 <=? n)%nat && (n <=? 122)%nat then Ascii.ascii_of_nat (n - 32) else c.

(** [s.toUpperCase()] on ASCII text. *)
Fixpoint toUpperCase (s : string) : string :=
  match s with
  | EmptyString => EmptyString
  | String c s' => String (upper_ascii c) (toUpperCase s')
  end.

(** [(state) => state.foo.value.toUpperCase()] *)
Definition derivedFoo : derivedFn :=
  fun state h =>
    match obj_get "foo" state with
    | Some l =>
        match h !! l with
        | Some (VStr s) => VStr (toUpperCase s)
        | _ => VUndefined
        end
    | None => VUndefined
    end.

(** The configuration of the snapshot test of store.test.ts. *)
Definition test_config : StoreConfig :=
  mkConfig [("foo", VStr "bar"); ("baz", VStr "qux")]
           (Some [("derivedFoo", derivedFoo)]) None None.

(** The configuration of the collision test of store.test.ts. *)
Definition conflict_config : StoreConfig :=
  mkConfig [("foo", VStr "bar")] (Some [("foo", derivedFoo)]) None None.

(** [(state, n) => { state.count.value += n; return state.count.value; }] *)
Definition addAndGet : rawAction :=
  fun state args =>
    match obj_get "count" state, args with
    | Some l, VNum n :: _ =>
        let! old := read_signal l in
        match old with
        | VNum c => write_signal l (VNum (c + n)) ;; read_signal l
        | _ => throw (JsError "count is not a number")
        end
    | _, _ => throw (JsError "bad call")
    end.

(** [(state) => state.count.value * 2] *)
Definition doubled : derivedFn :=
  fun state h =>
    match obj_get "count" state with
    | Some l => match h !! l with Some (VNum c) => VNum (c * 2) | _ => VUndefined end
    | None => VUndefined
    end.

Definition counter_config : StoreConfig :=
  mkConfig [("count", VNum 0)] (Some [("doubled", doubled)])
           (Some [("addAndGet", addAndGet)]) None.

(** A state field and a derivation both named [actions]. *)
Definition reserved_config : StoreConfig :=
  mkConfig [("actions", VNum 1)] (Some [("actions", doubled)]) None None.

(** A state field named [actions], one named [getStateSnapshot]. *)
Definition shadowed_config : StoreConfig :=
  mkConfig [("actions", VNum 1); ("getStateSnapshot", VNum 2); ("count", VNum 3)]
           (Some [("doubled", doubled)]) (Some [("addAndGet", addAndGet)]) None.

(** A derivation named [actions]. *)
Definition shadowed_derived_config : StoreConfig :=
  mkConfig [("count", VNum 3)] (Some [("actions", doubled)]) None None.

(** A serializer and a deserializer for the counter, as a caller could
    pass them in the options. *)
Definition serialize_count (snapshot : obj value) : completion string :=
  match obj_get "count" snapshot with
  | Some (VNum 0) => Normal "count=0"
  | Some (VNum 5) => Normal "count=5"
  | _ => Throw (JsError "cannot serialize")
  end.

Definition deserialize_count (blob : string) : completion (obj value) :=
  if String.eqb blob "count=0" then Normal [("count", VNum 0)]
  else if String.eqb blob "count=5" then Normal [("count", VNum 5)]
  else if String.eqb blob "step=2" then Normal [("step", VNum 2)]
  else Throw (JsError "Unexpected token").

Definition no_stringify (_ : obj value) : completion string :=
  Throw (JsError "JSON.stringify is not used").

Definition no_parse (_ : string) : completion (obj value) :=
  Throw (JsError "JSON.parse is not used").

Definition counter_options (merge : option bool) : LocalStorageOptions :=
  mkOptions "counter-store" merge (Some serialize_count) (Some deserialize_count).

(** A world whose storage holds [blob] under the counter's key. *)
Definition world_with (blob : string) : World :=
  mkWorld [] (mkLocalStorage [("counter-store", blob)] false) [] 0.

(** A world whose storage cannot be accessed. *)
Definition world_denied : World := mkWorld [] (mkLocalStorage [] true) [] 0.

(** A hook that reports what the storage holds when it runs. *)
Definition report_hook (_ : Store) : M unit :=
  let! stored := getItem "counter-store" in
  console_error "hook saw:" (default "nothing" stored).

Definition hooked_config : StoreConfig :=
  mkConfig [("count", VNum 0)] (Some [("doubled", doubled)])
           (Some [("addAndGet", addAndGet)]) (Some report_hook).

(** A base state of two fields. *)
Definition stepper_config : StoreConfig :=
  mkConfig [("count", VNum 0); ("step", VNum 1)] None None None.

(** A runtime whose inherited methods are not called by the samples. *)
Definition no_method (_ : obj boundAction) (name : string) (_ : list value)
  : M value :=
  throw (JsError ("Object.prototype." ++ name ++ " is not used")).

(** The configuration of the collision test with one more derivation,
    named like a method every object inherits. *)
Definition inherited_name_config : StoreConfig :=
  mkConfig [("foo", VStr "bar")]
           (Some [("toString", derivedFoo); ("foo", derivedFoo)]) None None.

(** [() => { throw Object.create(null); }]: what is thrown has no
    [toString], so [String] cannot convert it. *)
Definition throw_bare_object {A B} (_ : A) : completion B :=
  Throw (JsThrown None).

(** Options whose deserializer throws such an object. *)
Definition bare_deserialize_options : LocalStorageOptions :=
  mkOptions "counter-store" None (Some serialize_count) (Some throw_bare_object).

(** Options whose serializer throws such an object. *)
Definition bare_serialize_options : LocalStorageOptions :=
  mkOptions "counter-store" None (Some throw_bare_object) (Some deserialize_count).

(** [(state, x) => { state.actions.value = x; }]: a setter of the state
    field named [actions]. *)
Definition setActionsField : rawAction :=
  fun state args =>
    match obj_get "actions" state with
    | Some s => write_signal s (nth 0 args VUndefined) ;; ret VUndefined
    | None => throw (JsError "Cannot set properties of undefined (setting 'value')")
    end.

(** A state field named [actions] and an action that writes it. *)
Definition reachable_config : StoreConfig :=
  mkConfig [("actions", VNum 1)] None (Some [("overwrite", setActionsField)]) None.

(** The middleware with a runtime whose JSON functions are not called,
    the options bringing their own. *)
Definition run_plugin (config : StoreConfig) (options : LocalStorageOptions)
  : M StoreConfig :=
  localStoragePlugin no_stringify no_parse config options.

(** A caller that transforms the configuration, creates the store and
    then calls the hook of the configuration on it. *)
Definition create_persistent (config : StoreConfig)
    (options : LocalStorageOptions) : M Store :=
  let! config' := run_plugin config options in
  let! store := createStore config' in
  match onStoreCreated config' with
  | Some hook => hook store
  | None => ret tt
  end ;;
  ret store.

End Samples.

Export Samples.

(** ** Vocabulary of the specification *)

Module Spec.

(** The first derivation, in enumeration order, named like a state field. *)
Definition collision (config : StoreConfig) : option string :=
  match derived config with
  | Some d => List.find (fun k => obj_has k (initialState config)) (obj_keys d)
  | None => None
  end.

Definition well_formed_opt {A} (o : option (obj A)) : bool :=
  match o with Some o => well_formed o | None => true end.

(** A valid configuration: its three records are objects (no key twice)
    and no derivation is named like a state field. *)
Definition valid (config : StoreConfig) : bool :=
  well_formed (initialState config) &&
  well_formed_opt (derived config) &&
  well_formed_opt (actions config) &&
  match collision config with None => true | Some _ => false end.

(** The cells of a store created on a heap of [base] cells: the i-th
    field owns the i-th new cell. *)
Definition fresh_cells (base : nat) (init : obj value) : obj loc :=
  zip (obj_keys init) (seq base (length init)).

(** The signal properties of a store. *)
Definition signal_props (stateSignals : obj loc) : obj prop :=
  map (fun kl => (kl.1, PSignal kl.2)) stateSignals.

(** The computed properties of a store over the signals [stateSignals]. *)
Definition computed_props (d : option (obj derivedFn)) (stateSignals : obj loc)
  : obj prop :=
  match d with
  | None => []
  | Some d => map (fun kf => (kf.1, PComputed kf.2 stateSignals)) d
  end.

(** The bound actions of a store over the signals [stateSignals]. *)
Definition bound_props (a : option (obj rawAction)) (stateSignals : obj loc)
  : obj boundAction :=
  match a with
  | None => []
  | Some a => map (fun kf => (kf.1, mkBound kf.2 stateSignals)) a
  end.

(** The store object built on a heap of [base] cells: signals, then
    computeds, then [actions] and [getStateSnapshot], each of the last two
    taking the place of a property of the same name. *)
Definition store_of (config : StoreConfig) (base : nat) : Store :=
  let cells := fresh_cells base (initialState config) in
  obj_set "getStateSnapshot" (PSnapshot cells)
    (obj_set "actions" (PActions (bound_props (actions config) cells))
       (signal_props cells ++ computed_props (derived config) cells)%list).

(** The names the store object keeps for itself. *)
Definition reserved (k : string) : bool :=
  String.eqb k "actions" || String.eqb k "getStateSnapshot".

(** The current value of every cell, under the name of its field. *)
Definition current_values (stateSignals : obj loc) (w : World) : obj value :=
  map (fun kl => (kl.1, peek kl.2 w)) stateSignals.

(** The first derivation, in enumeration order, that the check of
    [createStore] refuses: one named like a state field, or like one of
    the names every object inherits. *)
Definition conflict (config : StoreConfig) : option string :=
  match derived config with
  | Some d => List.find (fun k => js_in k (initialState config)) (obj_keys d)
  | None => None
  end.

(** No key is [__proto__]: an assignment to that key sets the prototype
    of the object instead of a property. *)
Definition proto_free {A} (o : obj A) : bool := negb (obj_has "__proto__" o).

Definition proto_free_opt {A} (o : option (obj A)) : bool :=
  match o with Some o => proto_free o | None => true end.

(** A configuration [createStore] accepts: its three records are objects,
    no field and no action is named [__proto__], and the check refuses no
    derivation. *)
Definition constructible (config : StoreConfig) : bool :=
  well_formed (initialState config) &&
  well_formed_opt (derived config) &&
  well_formed_opt (actions config) &&
  proto_free (initialState config) &&
  proto_free_opt (actions config) &&
  match conflict config with None => true | Some _ => false end.

(** A thrown value that [String] can convert, or an [Error]. *)
Definition convertible (e : exn) : bool :=
  match error_text e with Normal _ => true | Throw _ => false end.

(** A caller's function that throws nothing but convertible values. *)
Definition throws_convertible {A B} (f : A -> completion B) : Prop :=
  forall x e, f x = Throw e -> convertible e = true.

End Spec.

Export Spec.

(** ** Reading and writing a store from outside *)

Module StoreUse.

(** [store.k.value]: what the store inherits under a name has no
    [value]; reading [value] of a missing property throws. *)
Definition read_prop (store : Store) (k : string) : M value :=
  match obj_get k store with
  | Some p => prop_value p
  | None =>
      if inherited k then ret VUndefined
      else throw (JsError "Cannot read properties of undefined (reading 'value')")
  end.

(** [a === b] on the values modelled. *)
Definition strict_eq (a b : value) : bool :=
  match a, b with
  | VUndefined, VUndefined => true
  | VNull, VNull => true
  | VBool x, VBool y => Bool.eqb x y
  | VNum x, VNum y => Z.eqb x y
  | VStr x, VStr y => String.eqb x y
  | _, _ => false
  end.

(** The shape of every action of productListStore.ts (lines 58-69):
    [(state, x) => { state.field.value = x; }].  A missing argument is
    [undefined].  When [state] has no signal of that name, [state.field]
    is what [state] inherits under the name, and the assignment lands on
    that object of the runtime, not on a cell; when it inherits nothing
    either, [state.field] is [undefined] and the assignment throws. *)
Definition setField (field : string) : rawAction :=
  fun state args =>
    match obj_get field state with
    | Some s => write_signal s (nth 0 args VUndefined) ;; ret VUndefined
    | None =>
        if inherited field then ret VUndefined
        else throw (JsError "Cannot set properties of undefined (setting 'value')")
    end.

Definition setProducts : rawAction := setField "products".
Definition setSortBy : rawAction := setField "sortBy".
Definition setSortDirection : rawAction := setField "sortDirection".
Definition setSelectedProductId : rawAction := setField "selectedProductId".

(** The action map of productListStore.ts. *)
Definition productListActions : obj rawAction :=
  [("setProducts", setProducts); ("setSortBy", setSortBy);
   ("setSortDirection", setSortDirection);
   ("setSelectedProductId", setSelectedProductId)].

(** The keys of an optional record. *)
Definition obj_has_opt {A} (k : string) (o : option (obj A)) : bool :=
  match o with Some o => obj_has k o | None => false end.

(** A middleware made of the persistence plugin and its options. *)
Definition persist (JSON_stringify : obj value -> completion string)
    (JSON_parse : string -> completion (obj value))
    (options : LocalStorageOptions) : middleware :=
  fun config => localStoragePlugin JSON_stringify JSON_parse config options.

End StoreUse.

Export StoreUse.

(** ** The derivations of the product list (store/productListStore.ts) *)

Module ProductListStore.

Import QArith.

(** A number is a finite one: the comparator below only uses the sign of
    a difference, which is exact on finite numbers. *)
Record Product : Type := mkProduct {
  id : string;
  name : string;
  price : Q;
  qty : Q
}.

(** ["name" | "price" | "qty"] *)
Inductive SortBy : Type := ByName | ByPrice | ByQty.

(** ["asc" | "desc"] *)
Inductive SortDirection : Type := Asc | Desc.

(** The values of the four signals of the store. *)
Record ProductListState : Type := mkState {
  products : list Product;
  sortBy : SortBy;
  sortDirection : SortDirection;
  selectedProductId : option string
}.

(** [Array.prototype.sort(cmp)]: a stable sort; [x], which comes first,
    stays before [y] unless [cmp(x, y) > 0]. *)
Fixpoint sort_insert {A} (cmp : A -> A -> Q) (x : A) (l : list A) : list A :=
  match l with
  | [] => [x]
  | y :: l' =>
      if Qle_bool (cmp x y) 0 then x :: y :: l' else y :: sort_insert cmp x l'
  end.

Fixpoint Array_sort {A} (cmp : A -> A -> Q) (l : list A) : list A :=
  match l with
  | [] => []
  | x :: l' => sort_insert cmp x (Array_sort cmp l')
  end.

Section Derived.

(** [String.prototype.localeCompare] belongs to the runtime. *)
Variable localeCompare : string -> string -> Q.

(** Lines 39-46: the comparator. *)
Definition compareProducts (state : ProductListState) (a b : Product) : Q :=
  let direction := match sortDirection state with Asc => 1 | Desc => -1 end in
  match sortBy state with
  | ByName => direction * localeCompare (name a) (name b)
  | ByPrice => direction * (price a - price b)
  | ByQty => direction * (qty a - qty b)
  end.

(** Lines 37-48: a sorted copy of [state.products.value]. *)
Definition sortedProducts (state : ProductListState) : list Product :=
  Array_sort (compareProducts state) (products state).

End Derived.

(** Lines 49-55: the product whose id is selected, else [null]. *)
Definition selectedProduct (state : ProductListState) : option Product :=
  match selectedProductId state with
  | Some sel =>
      if truthy_string sel
      then List.find (fun p => String.eqb (id p) sel) (products state)
      else None
  | None => None
  end.

(** The sort key of a numeric field, and what it is to be in order. *)
Definition in_order (direction : SortDirection) (key : Product -> Q)
    (a b : Product) : Prop :=
  match direction with
  | Asc => key a <= key b
  | Desc => key b <= key a
  end.

(** The sample data of ProductList.tsx (lines 22-26). *)
Definition sampleProducts : list Product :=
  [mkProduct "1" "Laptop" (99999 # 100) 5;
   mkProduct "2" "Mouse" (2999 # 100) 50;
   mkProduct "3" "Keyboard" (5999 # 100) 20].

(** A collation for the samples: by length, then nothing more. *)
Definition by_length (a b : string) : Q :=
  inject_Z (Z.of_nat (String.length a) - Z.of_nat (String.length b)).

End ProductListStore.

(** ** Telemetry (util/telemetry.ts) *)

Module Telemetry.

(** The payload of a [SORT_CHANGED] event. *)
Record SortChanged : Type := mkSortChanged {
  sortBy : value;
  sortDirection : value;
  prevSortBy : value;
  prevSortDirection : value
}.

(** The variables the effect closes over, and what [telemetryApi] was
    sent so far. *)
Record Observer : Type := mkObserver {
  lastSortBy : value;         (* the variable prevSortBy *)
  lastSortDirection : value;  (* the variable prevSortDirection *)
  sent : list (string * SortChanged)
}.

(** Lines 16-31: the callback of the effect. *)
Definition onSortChange (productListStore : Store) (o : Observer) : M Observer :=
  let! sortBy := read_prop productListStore "sortBy" in
  let! sortDirection := read_prop productListStore "sortDirection" in
  if negb (strict_eq sortBy (lastSortBy o)) ||
     negb (strict_eq sortDirection (lastSortDirection o))
  then ret (mkObserver sortBy sortDirection
              (sent o ++ [("SORT_CHANGED",
                           mkSortChanged sortBy sortDirection
                             (lastSortBy o) (lastSortDirection o))]))
  else ret o.

(** Lines 12-35: the two variables are set, then the effect is registered
    and its callback run once. *)
Definition initializeTelemetry (productListStore : Store) : M Observer :=
  let! prevSortBy := read_prop productListStore "sortBy" in
  let! prevSortDirection := read_prop productListStore "sortDirection" in
  effect (ret tt) ;;
  onSortChange productListStore (mkObserver prevSortBy prevSortDirection []).

End Telemetry.

(** ** More samples *)

Module MoreSamples.

(** The sort controls and the selection of productListStore.ts, with its
    actions on them. *)
Definition controls_config : StoreConfig :=
  mkConfig [("sortBy", VStr "name"); ("sortDirection", VStr "asc");
            ("selectedProductId", VNull)]
           None (Some productListActions) None.

(** A second options record, under another key. *)
Definition backup_options : LocalStorageOptions :=
  mkOptions "backup-store" None (Some serialize_count) (Some deserialize_count).

(** A derivation named like a field the storage may hold. *)
Definition step_derived_config : StoreConfig :=
  mkConfig [("count", VNum 0)] (Some [("step", doubled)]) None None.

(** A transform that always throws. *)
Definition failing_middleware : middleware :=
  fun _ => throw (JsError "middleware failed").

(** A transform that logs that it ran. *)
Definition logging_middleware : middleware :=
  fun config => console_error "ran" "logging_middleware" ;; ret config.

End MoreSamples.

Export MoreSamples.

(** ** Facts about objects *)

Local Open Scope list_scope.

Section ObjFacts.

Context {A : Type}.
Implicit Types (o src into : obj A) (k : string) (v : A).

Lemma obj_get_set_eq k v o : obj_get k (obj_set k v o) = Some v.
Proof.
  induction o as [|[k' v'] o IH]; simpl.
  - by rewrite String.eqb_refl.
  - destruct (String.eqb k k') eqn:E; simpl; rewrite ?E; [by rewrite String.eqb_refl | done].
Qed.

Lemma obj_get_set_ne k k' v o :
  k <> k' -> obj_get k (obj_set k' v o) = obj_get k o.
Proof.
  intros Hne. induction o as [|[k2 v2] o IH]; simpl.
  - by apply String.eqb_neq in Hne as ->.
  - destruct (String.eqb k' k2) eqn:E; simpl.
    + apply String.eqb_eq in E as <-.
      by apply String.eqb_neq in Hne as ->.
    + by rewrite IH.
Qed.

Lemma obj_get_None k o : obj_get k o = None <-> k ∉ obj_keys o.
Proof.
  unfold obj_keys. induction o as [|[k' v'] o IH]; simpl.
  - split; [intros _; apply not_elem_of_nil | done].
  - rewrite not_elem_of_cons. destruct (String.eqb_spec k k') as [->|Hne].
    + split; [done | intros [? _]; done].
    + rewrite IH. tauto.
Qed.

Lemma obj_get_Some_keys k v o : obj_get k o = Some v -> k ∈ obj_keys o.
Proof.
  intros H. destruct (decide (k ∈ obj_keys o)) as [|Hn]; [done|].
  apply obj_get_None in Hn. congruence.
Qed.

Lemma obj_has_true k o : obj_has k o = true <-> k ∈ obj_keys o.
Proof.
  unfold obj_has. destruct (obj_get k o) eqn:E.
  - split; [intros _; by eapply obj_get_Some_keys | done].
  - split; [done | intros H; by apply obj_get_None in E].
Qed.

Lemma obj_has_false k o : obj_has k o = false <-> k ∉ obj_keys o.
Proof.
  rewrite <- obj_has_true. destruct (obj_has k o); split; congruence.
Qed.

Lemma obj_has_set k k' v o :
  obj_has k (obj_set k' v o) = String.eqb k k' || obj_has k o.
Proof.
  unfold obj_has. destruct (String.eqb_spec k k') as [->|Hne].
  - by rewrite obj_get_set_eq.
  - by rewrite obj_get_set_ne.
Qed.

Lemma obj_get_app k o1 o2 :
  obj_get k (o1 ++ o2) =
  match obj_get k o1 with Some v => Some v | None => obj_get k o2 end.
Proof.
  induction o1 as [|[k' v'] o1 IH]; simpl; [done|].
  by destruct (String.eqb k k').
Qed.

Lemma obj_set_fresh k v o : k ∉ obj_keys o -> obj_set k v o = o ++ [(k, v)].
Proof.
  unfold obj_keys. induction o as [|[k' v'] o IH]; simpl; [done|].
  rewrite not_elem_of_cons. intros [Hne Hni].
  apply String.eqb_neq in Hne as ->. by rewrite IH.
Qed.

Lemma distinct_keys_NoDup (ks : list string) :
  distinct_keys ks = true <-> NoDup ks.
Proof.
  induction ks as [|k ks IH]; simpl.
  - split; [intros _; constructor | done].
  - rewrite NoDup_cons, andb_true_iff, negb_true_iff, IH.
    assert (existsb (String.eqb k) ks = false <-> k ∉ ks) as ->; [|done].
    rewrite <- not_true_iff_false, existsb_exists. split.
    + intros Hn Hin. apply Hn. exists k. split; [by apply list_elem_of_In | apply String.eqb_refl].
    + intros Hn (x & Hin & Heq). apply String.eqb_eq in Heq as <-.
      by apply Hn, list_elem_of_In.
Qed.

Lemma well_formed_NoDup o : well_formed o = true <-> NoDup (obj_keys o).
Proof. apply distinct_keys_NoDup. Qed.

(** Spreading fresh, distinct keys appends them. *)
Lemma obj_spread_fresh src into :
  NoDup (obj_keys (into ++ src)) -> obj_spread src into = into ++ src.
Proof.
  unfold obj_spread, obj_keys.
  revert into. induction src as [|[k v] src IH]; intros into Hnd; simpl.
  - by rewrite app_nil_r.
  - rewrite fmap_app, fmap_cons in Hnd.
    assert (k ∉ into.*1) as Hk.
    { apply NoDup_app in Hnd as (_ & Hd & _). intros Hin. apply (Hd k Hin). left. }
    rewrite (obj_set_fresh k v into Hk).
    rewrite IH; [by rewrite <- app_assoc|].
    rewrite <- app_assoc. simpl. by rewrite fmap_app, fmap_cons.
Qed.

Lemma obj_spread_nil o : well_formed o = true -> obj_spread o [] = o.
Proof.
  intros H%well_formed_NoDup. by rewrite obj_spread_fresh.
Qed.

(** A spread overlays: the spread object's properties win. *)
Lemma obj_get_spread k src into :
  NoDup (obj_keys src) ->
  obj_get k (obj_spread src into) =
  match obj_get k src with Some v => Some v | None => obj_get k into end.
Proof.
  unfold obj_spread, obj_keys.
  revert into. induction src as [|[k' v'] src IH]; intros into Hnd; simpl; [done|].
  rewrite fmap_cons in Hnd. simpl in Hnd. apply NoDup_cons in Hnd as [Hk' Hnd].
  rewrite IH by done. destruct (String.eqb_spec k k') as [->|Hne].
  - apply obj_get_None in Hk'. by rewrite Hk', obj_get_set_eq.
  - by rewrite obj_get_set_ne.
Qed.

Lemma obj_has_spread k src into :
  obj_has k (obj_spread src into) = obj_has k src || obj_has k into.
Proof.
  unfold obj_spread. revert into.
  induction src as [|[k' v'] src IH]; intros into; simpl; [done|].
  rewrite IH, obj_has_set. unfold obj_has at 3. simpl.
  destruct (String.eqb k k'); simpl; [by rewrite orb_true_r | done].
Qed.

Lemma obj_keys_set_old k v o :
  k ∈ obj_keys o -> obj_keys (obj_set k v o) = obj_keys o.
Proof.
  unfold obj_keys. induction o as [|[k' v'] o IH]; simpl.
  - intros H. by apply elem_of_nil in H.
  - destruct (String.eqb_spec k k') as [->|Hne]; [done|].
    rewrite elem_of_cons. intros [?|Hin]; [done|]. simpl. f_equal. by apply IH.
Qed.

Lemma obj_set_NoDup k v o :
  NoDup (obj_keys o) -> NoDup (obj_keys (obj_set k v o)).
Proof.
  intros Hnd. destruct (decide (k ∈ obj_keys o)) as [Hin|Hni].
  - by rewrite obj_keys_set_old.
  - rewrite obj_set_fresh by done. unfold obj_keys in *.
    rewrite fmap_app. simpl. apply NoDup_app. split_and!; [done| |apply NoDup_singleton].
    intros x Hx ->%list_elem_of_singleton. done.
Qed.

Lemma obj_spread_NoDup src into :
  NoDup (obj_keys into) -> NoDup (obj_keys (obj_spread src into)).
Proof.
  unfold obj_spread. revert into.
  induction src as [|[k v] src IH]; intros into Hnd; simpl; [done|].
  by apply IH, obj_set_NoDup.
Qed.

End ObjFacts.

Lemma obj_get_fmap {A B} (g : A -> B) (k : string) (o : obj A) :
  obj_get k (map (fun kv => (kv.1, g kv.2)) o) = g <$> obj_get k o.
Proof.
  induction o as [|[k' v'] o IH]; simpl; [done|].
  by destruct (String.eqb k k').
Qed.

Lemma obj_keys_fmap {A B} (g : A -> B) (o : obj A) :
  obj_keys (map (fun kv => (kv.1, g kv.2)) o) = obj_keys o.
Proof.
  unfold obj_keys. induction o as [|[k' v'] o IH]; simpl; [done|].
  f_equal. apply IH.
Qed.

Lemma obj_has_fmap {A B} (g : A -> B) (k : string) (o : obj A) :
  obj_has k (map (fun kv => (kv.1, g kv.2)) o) = obj_has k o.
Proof.
  unfold obj_has. rewrite obj_get_fmap. by destruct (obj_get k o).
Qed.

(** ** Facts about the store factory *)

Section StoreFacts.

Implicit Types (config : StoreConfig) (w : World) (init : obj value)
  (stateSignals : obj loc) (k : string).

(** Whatever the record, the loop allocates one cell per entry and names
    exactly the entries' keys. *)
Lemma signal_loop_any init : forall acc w,
  exists stateSignals,
    foldM signal_step init acc w =
      (Normal stateSignals, set_heap (heap w ++ init.*2) w) /\
    forall k, obj_has k stateSignals = obj_has k init || obj_has k acc.
Proof.
  induction init as [|[k0 v0] init IH]; intros acc w.
  - exists acc. split; [|done].
    simpl. rewrite app_nil_r. by destruct w.
  - destruct (IH (obj_set k0 (length (heap w)) acc) (set_heap (heap w ++ [v0]) w))
      as (sigs & Hrun & Hhas).
    exists sigs. split.
    + simpl. unfold bind at 1. unfold signal_step at 1. unfold bind at 1. simpl.
      etrans; [exact Hrun|]. simpl. unfold set_heap. simpl.
      by rewrite <- app_assoc.
    + intros k. rewrite Hhas, obj_has_set. unfold obj_has at 3. simpl.
      destruct (String.eqb k k0); simpl; [by rewrite orb_true_r | done].
Qed.

(** On distinct keys the signals are the fresh cells, in order. *)
Lemma signal_loop_fresh init : forall (acc : obj loc) w,
  NoDup (obj_keys acc ++ obj_keys init) ->
  foldM signal_step init acc w =
    (Normal (acc ++ fresh_cells (length (heap w)) init),
     set_heap (heap w ++ init.*2) w).
Proof.
  unfold fresh_cells, obj_keys.
  induction init as [|[k0 v0] init IH]; intros acc w Hnd.
  - simpl. rewrite !app_nil_r. by destruct w.
  - simpl. unfold bind at 1. unfold signal_step at 1. unfold bind at 1. simpl.
    assert (k0 ∉ acc.*1) as Hk.
    { apply NoDup_app in Hnd as (_ & Hd & _).
      intros Hin. apply (Hd k0 Hin). left. }
    rewrite (obj_set_fresh _ _ _ Hk).
    etrans; [apply IH; by rewrite fmap_app, <- app_assoc|].
    simpl. rewrite length_app. simpl. rewrite Nat.add_1_r.
    unfold set_heap. simpl. by rewrite <- !app_assoc.
Qed.

Lemma createStateSignals_fresh init w :
  well_formed init = true ->
  createStateSignals init w =
    (Normal (fresh_cells (length (heap w)) init),
     set_heap (heap w ++ init.*2) w).
Proof.
  intros H%well_formed_NoDup. unfold createStateSignals.
  change (foldM signal_step init [] w = (Normal ([] ++ fresh_cells (length (heap w)) init),
     set_heap (heap w ++ init.*2) w)).
  by apply signal_loop_fresh.
Qed.

Lemma createStateSignals_any init w :
  exists stateSignals,
    createStateSignals init w =
      (Normal stateSignals, set_heap (heap w ++ init.*2) w) /\
    forall k, obj_has k stateSignals = obj_has k init.
Proof.
  destruct (signal_loop_any init [] w) as (sigs & Hrun & Hhas).
  exists sigs. split; [exact Hrun|].
  intros k. rewrite Hhas. apply orb_false_r.
Qed.

Lemma derived_loop_throws stateSignals (d : obj derivedFn) k : forall acc w,
  List.find (fun k => js_in k stateSignals) (obj_keys d) = Some k ->
  foldM (derived_step stateSignals) d acc w =
    (Throw (JsError (conflict_message k)), w).
Proof.
  induction d as [|[k0 f0] d IH]; intros acc w; simpl; [done|].
  unfold bind, derived_step at 1. simpl.
  destruct (js_in k0 stateSignals) eqn:E.
  - by intros [= ->].
  - intros H. simpl. by apply IH.
Qed.

Lemma derived_loop_ok stateSignals (d : obj derivedFn) : forall acc w,
  List.find (fun k => js_in k stateSignals) (obj_keys d) = None ->
  foldM (derived_step stateSignals) d acc w =
    (Normal (obj_spread (map (fun kf => (kf.1, PComputed kf.2 stateSignals)) d) acc), w).
Proof.
  induction d as [|[k0 f0] d IH]; intros acc w; simpl; [done|].
  unfold bind, derived_step at 1. simpl.
  destruct (js_in k0 stateSignals) eqn:E; [done|].
  intros H. simpl. by apply IH.
Qed.

Lemma find_ext_in {B C} (s : obj B) (s' : obj C) (ks : list string) :
  (forall k, obj_has k s = obj_has k s') ->
  List.find (fun k => js_in k s) ks = List.find (fun k => js_in k s') ks.
Proof.
  intros H. induction ks as [|k ks IH]; simpl; [done|].
  unfold js_in at 1 3. by rewrite H, IH.
Qed.

Lemma fresh_cells_keys base init :
  obj_keys (fresh_cells base init) = obj_keys init.
Proof.
  unfold fresh_cells, obj_keys. apply fst_zip.
  by rewrite length_fmap, length_seq.
Qed.

Lemma fresh_cells_locs base init :
  (fresh_cells base init).*2 = seq base (length init).
Proof.
  unfold fresh_cells, obj_keys. apply snd_zip.
  by rewrite length_fmap, length_seq.
Qed.

Lemma fresh_cells_has base init k :
  obj_has k (fresh_cells base init) = obj_has k init.
Proof.
  destruct (obj_has k init) eqn:E.
  - apply obj_has_true. rewrite fresh_cells_keys. by apply obj_has_true.
  - apply obj_has_false. rewrite fresh_cells_keys. by apply obj_has_false.
Qed.

Lemma fresh_cells_lookup base init i k v :
  well_formed init = true ->
  init !! i = Some (k, v) ->
  obj_get k (fresh_cells base init) = Some (base + i).
Proof.
  intros Hwf%well_formed_NoDup. unfold fresh_cells, obj_keys in *.
  revert base i Hwf. induction init as [|[k0 v0] init IH]; intros base i Hnd Hi.
  - by destruct i.
  - simpl in *. apply NoDup_cons in Hnd as [Hk0 Hnd]. destruct i as [|i]; simpl in Hi.
    + injection Hi as -> ->. by rewrite String.eqb_refl, Nat.add_0_r.
    + destruct (String.eqb_spec k k0) as [->|Hne].
      * exfalso. apply Hk0. apply list_elem_of_fmap. exists (k0, v).
        split; [done|]. by eapply list_elem_of_lookup_2.
      * etrans; [apply (IH (S base) i Hnd Hi)|]. f_equal. lia.
Qed.

Lemma fold_set_fmap {A B} (g : A -> B) (src : obj A) : forall into : obj B,
  fold_left (fun acc kv => obj_set kv.1 (g kv.2) acc) src into =
  obj_spread (map (fun kv => (kv.1, g kv.2)) src) into.
Proof.
  unfold obj_spread. induction src as [|[k v] src IH]; intros into; simpl; [done|].
  apply IH.
Qed.

Lemma bindActions_valid a stateSignals :
  well_formed_opt a = true -> bindActions a stateSignals = bound_props a stateSignals.
Proof.
  destruct a as [a|]; simpl; [|done]. intros Hwf.
  rewrite (fold_set_fmap (fun f => mkBound f stateSignals)).
  apply obj_spread_nil. unfold well_formed.
  by rewrite (obj_keys_fmap (fun f => mkBound f stateSignals)).
Qed.

Lemma createDerived_valid d stateSignals w :
  well_formed_opt d = true ->
  (match d with
   | Some d => List.find (fun k => js_in k stateSignals) (obj_keys d)
   | None => None
   end) = None ->
  createDerived d stateSignals w = (Normal (computed_props d stateSignals), w).
Proof.
  destruct d as [d|]; simpl; [|done]. intros Hwf Hfind.
  rewrite derived_loop_ok by done. do 2 f_equal.
  apply obj_spread_nil. unfold well_formed.
  by rewrite (obj_keys_fmap (fun f => PComputed f stateSignals)).
Qed.

Lemma getStateSnapshot_run stateSignals opt w :
  NoDup (obj_keys stateSignals) ->
  getStateSnapshot stateSignals opt w = (Normal (current_values stateSignals w), w).
Proof.
  intros Hnd. unfold getStateSnapshot, current_values. do 2 f_equal.
  rewrite (fold_set_fmap (fun l => peek l w)).
  apply obj_spread_nil, well_formed_NoDup.
  by rewrite (obj_keys_fmap (fun l => peek l w)).
Qed.

(** The argument of [getStateSnapshot] plays no part. *)
Lemma getStateSnapshot_ignores_options stateSignals opt opt' :
  getStateSnapshot stateSignals opt = getStateSnapshot stateSignals opt'.
Proof. done. Qed.

Lemma valid_parts config :
  valid config = true ->
  NoDup (obj_keys (initialState config)) /\
  well_formed_opt (derived config) = true /\
  well_formed_opt (actions config) = true /\
  collision config = None.
Proof.
  unfold valid. rewrite !andb_true_iff. intros [[[H1 H2] H3] H4].
  apply well_formed_NoDup in H1. by destruct (collision config).
Qed.

Lemma computed_props_keys_fresh config stateSignals :
  valid config = true ->
  obj_keys stateSignals = obj_keys (initialState config) ->
  NoDup (obj_keys (signal_props stateSignals ++
                   computed_props (derived config) stateSignals)).
Proof.
  intros (Hnd & Hd & _ & Hc)%valid_parts Hk. unfold obj_keys at 1.
  rewrite fmap_app. fold (obj_keys (signal_props stateSignals)).
  fold (obj_keys (computed_props (derived config) stateSignals)).
  unfold signal_props. rewrite (obj_keys_fmap PSignal), Hk.
  unfold collision in Hc. destruct (derived config) as [d|]; simpl.
  - rewrite (obj_keys_fmap (fun f => PComputed f stateSignals)).
    apply NoDup_app. split_and!; [done| |by apply well_formed_NoDup].
    intros k Hin1 Hin2%list_elem_of_In.
    pose proof (find_none _ _ Hc k Hin2) as Hf. simpl in Hf.
    apply obj_has_false in Hf. done.
  - by rewrite app_nil_r.
Qed.

Lemma conflict_none_collision config :
  conflict config = None -> collision config = None.
Proof.
  unfold conflict, collision. destruct (derived config) as [d|]; [|done].
  intros Hc. destruct (List.find (fun k => obj_has k _) _) as [k|] eqn:E; [|done].
  apply find_some in E as [Hin Hk].
  pose proof (find_none _ _ Hc k Hin) as Hf. simpl in Hf.
  unfold js_in in Hf. by rewrite Hk in Hf.
Qed.

(** What the check refuses is thrown, after the cells were created. *)
Lemma createStore_refuses config w k :
  conflict config = Some k ->
  createStore config w =
    (Throw (JsError (conflict_message k)),
     set_heap (heap w ++ (initialState config).*2) w).
Proof.
  intros Hc. unfold conflict in Hc.
  destruct (derived config) as [d|] eqn:Hd; [|done].
  destruct (createStateSignals_any (initialState config) w) as (sigs & Hrun & Hsame).
  unfold createStore, bind. rewrite Hrun. unfold createDerived. rewrite Hd.
  rewrite (derived_loop_throws sigs d k); [done|].
  rewrite <- Hc. by apply find_ext_in.
Qed.

(** The store of a valid configuration that the check accepts, in closed
    form. *)
Lemma createStore_accepts config w :
  valid config = true ->
  conflict config = None ->
  createStore config w =
    (Normal (store_of config (length (heap w))),
     set_heap (heap w ++ (initialState config).*2) w).
Proof.
  intros Hv Hcf. pose proof (valid_parts _ Hv) as (Hnd & Hd & Ha & Hc).
  unfold createStore, bind.
  rewrite createStateSignals_fresh by by apply well_formed_NoDup.
  set (cells := fresh_cells (length (heap w)) (initialState config)).
  rewrite createDerived_valid; [|done|].
  - rewrite bindActions_valid by done. unfold ret, store_of, assemble.
    fold cells. do 4 f_equal.
    fold (signal_props cells).
    rewrite (obj_spread_nil (signal_props cells)).
    + apply obj_spread_fresh, computed_props_keys_fresh; [done|].
      apply fresh_cells_keys.
    + apply well_formed_NoDup. unfold signal_props, cells.
      by rewrite (obj_keys_fmap PSignal), fresh_cells_keys.
  - unfold conflict in Hcf. destruct (derived config) as [d|]; [|done].
    rewrite <- Hcf. apply find_ext_in. intros k. apply fresh_cells_has.
Qed.

(** A store returned for a valid configuration is the one in closed
    form: the check has accepted the configuration. *)
Lemma createStore_valid_inv config w store w' :
  valid config = true ->
  createStore config w = (Normal store, w') ->
  store = store_of config (length (heap w)) /\
  w' = set_heap (heap w ++ (initialState config).*2) w.
Proof.
  intros Hv Hrun. destruct (conflict config) as [k|] eqn:Hc.
  - by rewrite (createStore_refuses config w k) in Hrun.
  - rewrite createStore_accepts in Hrun by done. by injection Hrun as <- <-.
Qed.

Lemma constructible_parts config :
  constructible config = true ->
  valid config = true /\
  conflict config = None /\
  proto_free (initialState config) = true /\
  proto_free_opt (actions config) = true.
Proof.
  unfold constructible, valid. rewrite !andb_true_iff.
  intros [[[[[H1 H2] H3] H4] H5] H6].
  destruct (conflict config) eqn:Hc; [done|].
  rewrite (conflict_none_collision _ Hc). by rewrite H1, H2, H3.
Qed.

Lemma createStore_constructible config w :
  constructible config = true ->
  createStore config w =
    (Normal (store_of config (length (heap w))),
     set_heap (heap w ++ (initialState config).*2) w).
Proof.
  intros (Hv & Hc & _)%constructible_parts. by apply createStore_accepts.
Qed.

End StoreFacts.

(** ** Properties of the store *)

Section StoreProperties.

Implicit Types (config : StoreConfig) (w : World) (k : string).

Lemma reserved_false k :
  reserved k = false <-> k <> "actions" /\ k <> "getStateSnapshot".
Proof.
  unfold reserved. rewrite orb_false_iff, !String.eqb_neq. tauto.
Qed.

Lemma reserved_true k :
  reserved k = true <-> k = "actions" \/ k = "getStateSnapshot".
Proof.
  unfold reserved. rewrite orb_true_iff, !String.eqb_eq. tauto.
Qed.

Lemma store_of_getStateSnapshot config base :
  obj_get "getStateSnapshot" (store_of config base) =
    Some (PSnapshot (fresh_cells base (initialState config))).
Proof. apply obj_get_set_eq. Qed.

Lemma store_of_actions config base :
  obj_get "actions" (store_of config base) =
    Some (PActions (bound_props (actions config)
                      (fresh_cells base (initialState config)))).
Proof.
  unfold store_of. rewrite obj_get_set_ne by done. apply obj_get_set_eq.
Qed.

Lemma store_of_other config base k :
  reserved k = false ->
  obj_get k (store_of config base) =
    let cells := fresh_cells base (initialState config) in
    match obj_get k cells with
    | Some l => Some (PSignal l)
    | None => obj_get k (computed_props (derived config) cells)
    end.
Proof.
  intros [H1 H2]%reserved_false. unfold store_of.
  rewrite !obj_get_set_ne by done. rewrite obj_get_app.
  unfold signal_props. rewrite (obj_get_fmap PSignal). simpl.
  by destruct (obj_get k _).
Qed.

Lemma computed_props_get d (cells : obj loc) k p :
  obj_get k (computed_props d cells) = Some p ->
  exists f, p = PComputed f cells /\ exists d', d = Some d' /\ obj_get k d' = Some f.
Proof.
  destruct d as [d|]; simpl; [|done].
  rewrite (obj_get_fmap (fun f => PComputed f cells)).
  destruct (obj_get k d) as [f|] eqn:E; simpl; [|done].
  intros [= <-]. eauto.
Qed.

(** A signal found on the store object sits under the name of its field. *)
Lemma store_of_signal config base k l :
  obj_get k (store_of config base) = Some (PSignal l) ->
  reserved k = false /\
  obj_get k (fresh_cells base (initialState config)) = Some l.
Proof.
  destruct (reserved k) eqn:E.
  - apply reserved_true in E as [-> | ->].
    + by rewrite store_of_actions.
    + by rewrite store_of_getStateSnapshot.
  - rewrite store_of_other by done. simpl.
    destruct (obj_get k (fresh_cells _ _)) as [l'|] eqn:E'.
    + by intros [= ->].
    + intros (f & Hf & _)%computed_props_get. done.
Qed.

Lemma obj_get_elem {A} k (v : A) (o : obj A) :
  obj_get k o = Some v -> (k, v) ∈ o.
Proof.
  induction o as [|[k' v'] o IH]; simpl; [done|].
  destruct (String.eqb_spec k k') as [->|Hne].
  - intros [= ->]. left.
  - intros H. right. by apply IH.
Qed.

Lemma obj_get_loc_inj (o : obj loc) k k' l :
  NoDup o.*2 -> obj_get k o = Some l -> obj_get k' o = Some l -> k = k'.
Proof.
  intros Hnd H1%obj_get_elem H2%obj_get_elem.
  apply list_elem_of_lookup in H1 as [i Hi], H2 as [j Hj].
  assert (i = j) as ->.
  { eapply NoDup_lookup; [exact Hnd| |].
    - rewrite list_lookup_fmap, Hi. done.
    - rewrite list_lookup_fmap, Hj. done. }
  congruence.
Qed.

Lemma fresh_cells_NoDup base init : NoDup (fresh_cells base init).*2.
Proof. rewrite fresh_cells_locs. apply NoDup_seq. Qed.

Lemma peek_fresh w init i k v :
  init !! i = Some (k, v) ->
  peek (length (heap w) + i) (set_heap (heap w ++ init.*2) w) = v.
Proof.
  intros Hi. unfold peek. simpl.
  rewrite lookup_app_r by lia.
  replace (length (heap w) + i - length (heap w)) with i by lia.
  by rewrite list_lookup_fmap, Hi.
Qed.

(** C3.  The collision test of store.test.ts with one more derivation,
    named [toString]: [initialState] is [{ foo: 'bar' }] and the derived
    map has the keys [toString] and [foo].  The one key of the derived map
    that is a key of [initialState] is [foo]; [toString] is no key of
    [initialState] and no signal was created for it.  [createStore]
    throws, and the message names [toString], not the colliding key. *)
Theorem createStore_names_an_inherited_key :
  collision inherited_name_config = Some "foo" /\
  obj_has "toString" (initialState inherited_name_config) = false /\
  createStateSignals (initialState inherited_name_config) world0 =
    (Normal [("foo", 0)], mkWorld [VStr "bar"] (localStorage world0) [] 0) /\
  createStore inherited_name_config world0 =
    (Throw (JsError "Derived key 'toString' conflicts with state signal"),
     mkWorld [VStr "bar"] (localStorage world0) [] 0) /\
  createStore inherited_name_config world0 <>
    (Throw (JsError (conflict_message "foo")),
     mkWorld [VStr "bar"] (localStorage world0) [] 0).
Proof. split_and!; [reflexivity..|discriminate]. Qed.

(** The message of the collision test of store.test.ts. *)
Example conflict_config_message :
  fst (createStore conflict_config world0) =
    Throw (JsError "Derived key 'foo' conflicts with state signal").
Proof. reflexivity. Qed.



Lemma current_values_fresh_aux init : forall h0 : list value,
  map (fun kl : string * loc => (kl.1, default VUndefined ((h0 ++ init.*2) !! kl.2)))
      (zip init.*1 (seq (length h0) (length init))) = init.
Proof.
  induction init as [|[k0 v0] init IH]; intros h0; simpl; [done|].
  f_equal.
  - rewrite lookup_app_r by lia. by rewrite Nat.sub_diag.
  - specialize (IH (h0 ++ [v0])). rewrite length_app in IH. simpl in IH.
    rewrite Nat.add_1_r, <- app_assoc in IH. exact IH.
Qed.

(** Right after creation the cells hold the configured values. *)
Lemma current_values_fresh w init :
  current_values (fresh_cells (length (heap w)) init)
                 (set_heap (heap w ++ init.*2) w) = init.
Proof. apply current_values_fresh_aux. Qed.

Lemma current_values_keys (cells : obj loc) w :
  obj_keys (current_values cells w) = obj_keys cells.
Proof. apply (obj_keys_fmap (fun l => peek l w)). Qed.

Lemma current_values_get (cells : obj loc) w k :
  obj_get k (current_values cells w) = (fun l => peek l w) <$> obj_get k cells.
Proof. apply (obj_get_fmap (fun l => peek l w)). Qed.

Lemma peek_write l v w :
  l < length (heap w) -> peek l (write_signal l v w).2 = v.
Proof.
  intros Hl. unfold peek. simpl. by rewrite list_lookup_insert_eq.
Qed.

Lemma collision_none_has config d k :
  collision config = None -> derived config = Some d ->
  obj_has k (initialState config) = true -> obj_has k d = false.
Proof.
  intros Hc Hd Hk. unfold collision in Hc. rewrite Hd in Hc.
  apply obj_has_false. intros Hin%list_elem_of_In.
  pose proof (find_none _ _ Hc k Hin) as Hf. simpl in Hf. congruence.
Qed.

Lemma store_snapshot_run config base opt w1 :
  valid config = true ->
  store_getStateSnapshot (store_of config base) opt w1 =
    (Normal (current_values (fresh_cells base (initialState config)) w1), w1).
Proof.
  intros (Hnd & _)%valid_parts.
  unfold store_getStateSnapshot. rewrite store_of_getStateSnapshot.
  apply getStateSnapshot_run. by rewrite fresh_cells_keys.
Qed.

Lemma current_values_no_derived config base d k w1 :
  valid config = true ->
  derived config = Some d -> obj_has k d = true ->
  obj_get k (current_values (fresh_cells base (initialState config)) w1) = None.
Proof.
  intros (_ & _ & _ & Hc)%valid_parts Hd Hk. rewrite current_values_get.
  assert (obj_has k (initialState config) = false) as Hnot.
  { destruct (obj_has k (initialState config)) eqn:E; [|done].
    pose proof (collision_none_has config d k Hc Hd E). congruence. }
  rewrite <- (fresh_cells_has base) in Hnot.
  unfold obj_has in Hnot. by destruct (obj_get k (fresh_cells _ _)).
Qed.

(** C8.  On the store of a valid configuration [getStateSnapshot()]
    called without options returns, in any later world, the record whose
    keys are the fields of [initialState] and whose values are the values
    the cells hold in that world; no key of a derivation occurs in it.
    Nothing is kept between calls: the record is a function of the world
    of the call, so a call made after a cell was written reports the new
    value, and the call leaves the world as it is.  Right after creation
    the snapshot is [initialState]. *)
Theorem getStateSnapshot_state_fields_only config w store w' :
  valid config = true ->
  createStore config w = (Normal store, w') ->
  let cells := fresh_cells (length (heap w)) (initialState config) in
  (forall w1,
     store_getStateSnapshot store None w1 = (Normal (current_values cells w1), w1) /\
     obj_keys (current_values cells w1) = obj_keys (initialState config) /\
     (forall i k v,
        initialState config !! i = Some (k, v) ->
        obj_get k (current_values cells w1) = Some (peek (length (heap w) + i) w1)) /\
     (forall d k,
        derived config = Some d -> obj_has k d = true ->
        obj_get k (current_values cells w1) = None)) /\
  (forall w1 i k v0 v,
     initialState config !! i = Some (k, v0) ->
     length (heap w) + i < length (heap w1) ->
     exists snapshot,
       (write_signal (length (heap w) + i) v ;; store_getStateSnapshot store None) w1 =
         (Normal snapshot, (write_signal (length (heap w) + i) v w1).2) /\
       obj_get k snapshot = Some v) /\
  store_getStateSnapshot store None w' = (Normal (initialState config), w').
Proof.
  intros Hv Hrun cells. pose proof (valid_parts _ Hv) as (Hnd & _).
  destruct (createStore_valid_inv _ _ _ _ Hv Hrun) as [-> ->].
  pose proof (fun w1 => store_snapshot_run config (length (heap w)) None w1 Hv) as Hsnap.
  fold cells in Hsnap.
  assert (forall w1 i k v, initialState config !! i = Some (k, v) ->
            obj_get k (current_values cells w1) = Some (peek (length (heap w) + i) w1)) as Hget.
  { intros w1 i k v Hi. rewrite current_values_get. unfold cells.
    erewrite fresh_cells_lookup; [done | by apply well_formed_NoDup | done]. }
  split_and!.
  - intros w1. split_and!; [done | | by apply Hget |].
    + rewrite current_values_keys. apply fresh_cells_keys.
    + intros d k Hd Hk. by eapply current_values_no_derived.
  - intros w1 i k v0 v Hi Hlt. eexists. split.
    + unfold bind. simpl. rewrite Hsnap. done.
    + rewrite (Hget _ i k v0 Hi). f_equal. by apply peek_write.
  - rewrite Hsnap. f_equal. f_equal. apply current_values_fresh.
Qed.

Lemma getStateSnapshot_state_fields_only_witness :
  valid test_config = true /\
  createStore test_config world0 =
    (Normal (store_of test_config 0), mkWorld [VStr "bar"; VStr "qux"] (localStorage world0) [] 0) /\
  store_getStateSnapshot (store_of test_config 0) None
      (mkWorld [VStr "bar"; VStr "qux"] (localStorage world0) [] 0) =
    (Normal [("foo", VStr "bar"); ("baz", VStr "qux")],
     mkWorld [VStr "bar"; VStr "qux"] (localStorage world0) [] 0).
Proof.
  split; [reflexivity|]. split; [reflexivity|].
  apply (getStateSnapshot_state_fields_only test_config world0
           (store_of test_config 0)
           (mkWorld [VStr "bar"; VStr "qux"] (localStorage world0) [] 0));
    reflexivity.
Defined.

(** C1.  The snapshot test of store.test.ts, run on the code: asked for
    [{ withDerived: true }], [getStateSnapshot] returns the two state
    fields and no [derivedFoo], although the store holds that derived
    cell and its value is [BAR]. *)
Theorem getStateSnapshot_withDerived_omits_derived :
  exists store w',
    createStore test_config world0 = (Normal store, w') /\
    store_getStateSnapshot store (Some {| withDerived := true |}) w' =
      (Normal [("foo", VStr "bar"); ("baz", VStr "qux")], w') /\
    obj_get "derivedFoo" store =
      Some (PComputed derivedFoo [("foo", 0); ("baz", 1)]) /\
    prop_value (PComputed derivedFoo [("foo", 0); ("baz", 1)]) w' =
      (Normal (VStr "BAR"), w').
Proof. eexists _, _. split_and!; reflexivity. Qed.

(** The same at every store: with or without [withDerived], the snapshot
    of the store of a valid configuration has no key of a derivation. *)
Lemma getStateSnapshot_never_reports_derived config w opt d k w1 :
  valid config = true ->
  derived config = Some d -> obj_has k d = true ->
  exists snapshot,
    store_getStateSnapshot (store_of config (length (heap w))) opt w1 =
      (Normal snapshot, w1) /\
    obj_get k snapshot = None.
Proof.
  intros Hv Hd Hk. eexists. split; [by apply store_snapshot_run|].
  by eapply current_values_no_derived.
Qed.

Lemma store_action_run Object_method config base acts name raw args w1 :
  actions config = Some acts -> obj_get name acts = Some raw ->
  store_action Object_method (store_of config base) name args w1 =
    call_bound (mkBound raw (fresh_cells base (initialState config))) args w1.
Proof.
  intros Ha Hraw. unfold store_action.
  rewrite store_of_actions, Ha. simpl.
  rewrite (obj_get_fmap (fun f => mkBound f (fresh_cells base (initialState config)))).
  by rewrite Hraw.
Qed.

(** C2, as the code has it.  On the store of a valid configuration the
    bound action [store.actions.name(args)] runs the configured function
    on [(cells, args)], where [cells] are the store's own signals: it
    leaves the world the raw call leaves (the same cell writes, seen by a
    later snapshot), and throws what the raw call throws.  When the raw
    call returns a value the bound action returns [undefined]. *)
Theorem bound_action_runs_raw_action Object_method config acts name raw w store w' :
  valid config = true ->
  actions config = Some acts ->
  obj_get name acts = Some raw ->
  createStore config w = (Normal store, w') ->
  exists cells,
    cells = fresh_cells (length (heap w)) (initialState config) /\
    obj_get "getStateSnapshot" store = Some (PSnapshot cells) /\
    forall args w1,
      store_action Object_method store name args w1 =
        match raw cells args w1 with
        | (Normal _, w2) => (Normal VUndefined, w2)
        | (Throw e, w2) => (Throw e, w2)
        end /\
      (store_action Object_method store name args ;;
       store_getStateSnapshot store None) w1 =
        (raw cells args ;; getStateSnapshot cells None) w1.
Proof.
  intros Hv Ha Hraw Hrun.
  destruct (createStore_valid_inv _ _ _ _ Hv Hrun) as [-> ->].
  eexists. split; [reflexivity|]. split; [apply store_of_getStateSnapshot|].
  intros args w1.
  rewrite (store_action_run Object_method config _ acts name raw) by done.
  unfold call_bound, bind. simpl. split.
  - by destruct (raw _ args w1) as [[r|e] w2].
  - rewrite (store_action_run Object_method config _ acts name raw) by done.
    unfold call_bound, bind. simpl.
    destruct (raw _ args w1) as [[r|e] w2]; [|done].
    unfold store_getStateSnapshot. by rewrite store_of_getStateSnapshot.
Qed.

Lemma bound_action_runs_raw_action_witness :
  valid counter_config = true /\
  store_action no_method (store_of counter_config 0) "addAndGet" [VNum 5]
      (mkWorld [VNum 0] (localStorage world0) [] 0) =
    (Normal VUndefined, mkWorld [VNum 5] (localStorage world0) [] 0).
Proof.
  split; [reflexivity|].
  destruct (bound_action_runs_raw_action no_method counter_config
              [("addAndGet", addAndGet)] "addAndGet" addAndGet world0
              (store_of counter_config 0)
              (mkWorld [VNum 0] (localStorage world0) [] 0)
              eq_refl eq_refl eq_refl eq_refl) as (cells & -> & _ & H).
  exact (proj1 (H [VNum 5] (mkWorld [VNum 0] (localStorage world0) [] 0))).
Defined.

(** C2 as stated fails on the return value: the raw [addAndGet] returns
    the new count, the bound action returns [undefined]. *)
Lemma bound_action_drops_return_value :
  exists store w' cells,
    createStore counter_config world0 = (Normal store, w') /\
    obj_get "getStateSnapshot" store = Some (PSnapshot cells) /\
    (addAndGet cells [VNum 5] w').1 = Normal (VNum 5) /\
    (store_action no_method store "addAndGet" [VNum 5] w').1 = Normal VUndefined /\
    (store_action no_method store "addAndGet" [VNum 5] w').1 <>
      (addAndGet cells [VNum 5] w').1 /\
    (store_action no_method store "addAndGet" [VNum 5] w').2 =
      (addAndGet cells [VNum 5] w').2.
Proof.
  eexists _, _, _. split; [reflexivity|]. split; [reflexivity|].
  split_and!; try reflexivity. discriminate.
Qed.

(** The scenario of the specification: after the action the count cell
    holds 5, the derived cell reads 10. *)
Example counter_scenario :
  exists w2,
    (store_action no_method (store_of counter_config 0) "addAndGet" [VNum 5]
       (createStore counter_config world0).2).2 = w2 /\
    (store_getStateSnapshot (store_of counter_config 0) None w2).1 =
      Normal [("count", VNum 5)] /\
    (prop_value (PComputed doubled (fresh_cells 0 (initialState counter_config))) w2).1 =
      Normal (VNum 10).
Proof. eexists. split_and!; reflexivity. Qed.

(** C10, as the code has it.  For a configuration [createStore] accepts
    (so one without a collision) [createStore] succeeds also when a state
    field or a derivation is named [actions] or [getStateSnapshot].  On
    the store object these two properties are the action map and the
    snapshot function.  The cell of a state field of such a name is no
    property of the store object, but the store reaches it:
    [getStateSnapshot] reports the field's value, and every bound action
    runs its function on the cells, this one among them.  A derivation of
    such a name is no property of the store object either. *)
Theorem reserved_name_is_shadowed Object_method config w name :
  constructible config = true ->
  reserved name = true ->
  exists store w',
    createStore config w = (Normal store, w') /\
    let cells := fresh_cells (length (heap w)) (initialState config) in
    obj_get "actions" store = Some (PActions (bound_props (actions config) cells)) /\
    obj_get "getStateSnapshot" store = Some (PSnapshot cells) /\
    (forall i v,
       initialState config !! i = Some (name, v) ->
       let l := length (heap w) + i in
       obj_get name cells = Some l /\
       peek l w' = v /\
       (forall k, obj_get k store <> Some (PSignal l)) /\
       (exists snapshot,
          store_getStateSnapshot store None w' = (Normal snapshot, w') /\
          obj_get name snapshot = Some v) /\
       (forall acts nm raw args w1,
          actions config = Some acts -> obj_get nm acts = Some raw ->
          store_action Object_method store nm args w1 =
            call_bound (mkBound raw cells) args w1)) /\
    (forall d f,
       derived config = Some d -> obj_get name d = Some f ->
       forall f' s, obj_get name store <> Some (PComputed f' s)).
Proof.
  intros Hc Hres. pose proof (constructible_parts _ Hc) as (Hv & _).
  pose proof (valid_parts _ Hv) as (Hnd & _).
  eexists _, _. split; [by apply createStore_constructible|]. intros cells.
  split; [apply store_of_actions|]. split; [apply store_of_getStateSnapshot|].
  split.
  - intros i v Hi l.
    assert (obj_get name cells = Some l) as Hcell.
    { eapply fresh_cells_lookup; [by apply well_formed_NoDup | done]. }
    split_and!; [done | by eapply peek_fresh | | |].
    + intros k Hk. apply store_of_signal in Hk as [Hk1 Hk2].
      assert (k = name) as ->.
      { eapply obj_get_loc_inj; [apply fresh_cells_NoDup | exact Hk2 | exact Hcell]. }
      congruence.
    + eexists. split; [by apply store_snapshot_run|].
      rewrite current_values_fresh. fold cells.
      assert (obj_get name (current_values cells
                (set_heap (heap w ++ (initialState config).*2) w)) = Some v) as Hv'.
      { rewrite current_values_get. fold cells. rewrite Hcell. simpl. f_equal.
        by eapply peek_fresh. }
      unfold cells in Hv'. by rewrite current_values_fresh in Hv'.
    + intros acts nm raw args w1 Ha Hraw.
      by apply (store_action_run Object_method config _ acts nm raw).
  - intros d f Hd Hf f' s'. apply reserved_true in Hres as [-> | ->].
    + by rewrite store_of_actions.
    + by rewrite store_of_getStateSnapshot.
Qed.

Lemma reserved_name_is_shadowed_witness :
  constructible shadowed_config = true /\
  reserved "actions" = true /\
  exists store w',
    createStore shadowed_config world0 = (Normal store, w') /\
    (exists acts, obj_get "actions" store = Some (PActions acts)) /\
    (forall k, obj_get k store <> Some (PSignal 0)) /\
    exists snapshot,
      store_getStateSnapshot store None w' = (Normal snapshot, w') /\
      obj_get "actions" snapshot = Some (VNum 1).
Proof.
  split; [reflexivity|]. split; [reflexivity|].
  destruct (reserved_name_is_shadowed no_method shadowed_config world0 "actions"
              eq_refl eq_refl)
    as (store & w' & Hrun & Hact & _ & Hfield & _).
  exists store, w'. split; [exact Hrun|]. split; [by eexists|].
  destruct (Hfield 0 (VNum 1) eq_refl) as (_ & _ & Hno & Hsnap & _).
  split; [exact Hno | exact Hsnap].
Defined.

(** C10 as stated fails twice.  Where the reserved name is both a state
    field and a derivation, the collision check throws.  And where a state
    field is named [actions], its cell is reached through the store: the
    bound action [overwrite] writes it, as the next snapshot shows. *)
Lemma reserved_name_throws_or_is_reached :
  (obj_has "actions" (initialState reserved_config) = true /\
   (exists d, derived reserved_config = Some d /\ obj_has "actions" d = true) /\
   createStore reserved_config world0 =
     (Throw (JsError "Derived key 'actions' conflicts with state signal"),
      mkWorld [VNum 1] (localStorage world0) [] 0) /\
   forall store w', createStore reserved_config world0 <> (Normal store, w')) /\
  (exists store w' w2,
     createStore reachable_config world0 = (Normal store, w') /\
     obj_get "actions" store =
       Some (PActions [("overwrite", mkBound setActionsField [("actions", 0)])]) /\
     peek 0 w' = VNum 1 /\
     store_action no_method store "overwrite" [VNum 7] w' = (Normal VUndefined, w2) /\
     peek 0 w2 = VNum 7 /\
     store_getStateSnapshot store None w2 = (Normal [("actions", VNum 7)], w2)).
Proof.
  split.
  - split; [reflexivity|]. split; [by eexists|]. split; [reflexivity|].
    intros store w'. discriminate.
  - eexists _, _, _. split_and!; reflexivity.
Qed.

(** A derivation named [actions] is shadowed, and no snapshot reports it. *)
Example shadowed_derivation :
  (createStore shadowed_derived_config world0).1 =
    Normal [("count", PSignal 0); ("actions", PActions []);
            ("getStateSnapshot", PSnapshot [("count", 0)])] /\
  (store_getStateSnapshot (store_of shadowed_derived_config 0)
     (Some {| withDerived := true |})
     (createStore shadowed_derived_config world0).2).1 = Normal [("count", VNum 3)].
Proof. split; reflexivity. Qed.

End StoreProperties.

(** ** Properties of the middleware *)

Section ComposeProperties.

Implicit Types (m : middleware) (c : StoreConfig) (w : World).

Lemma compose_cons m ms c w :
  compose (m :: ms) c w = (let! c1 := m c in compose ms c1) w.
Proof. done. Qed.

Lemma compose_app ms1 ms2 c w :
  compose (ms1 ++ ms2) c w = (let! c1 := compose ms1 c in compose ms2 c1) w.
Proof.
  revert c w. induction ms1 as [|m ms1 IH]; intros c w; [done|].
  unfold compose, bind in *. simpl. unfold bind.
  destruct (m c w) as [[c1|e] w1]; [|done].
  apply IH.
Qed.

(** C4.  [compose(m1, m2)(c)] is [m2(m1(c))]: [m1] runs on [c], then
    [m2] on what [m1] returned (and not at all when [m1] throws); for
    transforms without effects this is the value [m2 (m1 c)].  Composing
    no transform gives the identity. *)
Theorem compose_left_to_right m1 m2 (f1 f2 : StoreConfig -> StoreConfig) c w :
  compose [m1; m2] c w = (let! c1 := m1 c in m2 c1) w /\
  compose [pure f1; pure f2] c w = (Normal (f2 (f1 c)), w) /\
  compose [] c w = (Normal c, w).
Proof.
  split_and!; [|done|done].
  rewrite compose_cons. unfold bind.
  destruct (m1 c w) as [[c1|e] w1]; [|done].
  rewrite compose_cons. unfold bind.
  by destruct (m2 c1 w1) as [[c2|e] w2].
Qed.

End ComposeProperties.

Section PersistenceProperties.

Variable JSON_stringify : obj value -> completion string.
Variable JSON_parse : string -> completion (obj value).

Implicit Types (config : StoreConfig) (options : LocalStorageOptions)
  (w : World) (store : Store).

Lemma loadStoredState_stored name de w blob hydrated :
  denied (localStorage w) = false ->
  obj_get name (items (localStorage w)) = Some blob ->
  truthy_string blob = true ->
  de blob = Normal hydrated ->
  loadStoredState name de w = (Normal hydrated, w).
Proof.
  intros Hd Hget Ht Hde.
  unfold loadStoredState, try_catch, bind, getItem, lift.
  by rewrite Hd, Hget, Ht, Hde.
Qed.

Lemma loadStoredState_fails name de w e text :
  hydration_error name de w = Some e ->
  error_text e = Normal text ->
  loadStoredState name de w =
    (Normal [], (console_error load_label text w).2).
Proof.
  unfold hydration_error, loadStoredState, try_catch, bind, getItem, lift.
  destruct (denied (localStorage w)).
  - intros [= <-] [= <-]. done.
  - destruct (obj_get name (items (localStorage w))) as [blob|]; [|done].
    destruct (truthy_string blob); [|done].
    destruct (de blob) as [h|e']; [done|]. intros [= <-] ->. done.
Qed.

(** The handler converts what was thrown: when that conversion throws,
    nothing is logged and the new error leaves the [try] statement. *)
Lemma loadStoredState_escapes name de w e e' :
  hydration_error name de w = Some e ->
  error_text e = Throw e' ->
  loadStoredState name de w = (Throw e', w).
Proof.
  unfold hydration_error, loadStoredState, try_catch, bind, getItem, lift.
  destruct (denied (localStorage w)).
  - intros [= <-] [=].
  - destruct (obj_get name (items (localStorage w))) as [blob|]; [|done].
    destruct (truthy_string blob); [|done].
    destruct (de blob) as [h|e'']; [done|]. intros [= <-] ->. done.
Qed.

Lemma loadStoredState_quiet name de w :
  hydration_error name de w = None ->
  exists hydrated, loadStoredState name de w = (Normal hydrated, w).
Proof.
  unfold hydration_error, loadStoredState, try_catch, bind, getItem, lift.
  destruct (denied (localStorage w)); [done|].
  destruct (obj_get name (items (localStorage w))) as [blob|]; [|by eexists].
  destruct (truthy_string blob); [|by eexists].
  destruct (de blob) as [h|e']; [by eexists | done].
Qed.

Lemma hydration_error_thrown name de w e :
  hydration_error name de w = Some e ->
  e = JsError "SecurityError" \/ exists blob, de blob = Throw e.
Proof.
  unfold hydration_error.
  destruct (denied (localStorage w)); [intros [= <-]; by left|].
  destruct (obj_get name (items (localStorage w))) as [blob|]; [|done].
  destruct (truthy_string blob); [|done].
  destruct (de blob) as [h|e'] eqn:E; [done|]. intros [= <-]. right. by exists blob.
Qed.

Lemma convertible_text e :
  convertible e = true -> exists text, error_text e = Normal text.
Proof. unfold convertible. destruct (error_text e); [by eexists | done]. Qed.

Lemma loadStoredState_total name de w :
  throws_convertible de ->
  exists hydrated w', loadStoredState name de w = (Normal hydrated, w').
Proof.
  intros Hc. destruct (hydration_error name de w) as [e|] eqn:E.
  - assert (convertible e = true) as [text Ht]%convertible_text.
    { destruct (hydration_error_thrown _ _ _ _ E) as [-> | [blob Hb]]; [done|].
      by apply (Hc blob). }
    eexists _, _. by apply (loadStoredState_fails _ _ _ e text).
  - destruct (loadStoredState_quiet _ _ _ E) as [h Hh]. by eexists _, _.
Qed.

Lemma mergeInitialState_merge base stored :
  well_formed base = true ->
  mergeInitialState true base stored = obj_spread stored base.
Proof. intros H. unfold mergeInitialState. by rewrite obj_spread_nil. Qed.

Lemma mergeInitialState_replace base stored :
  well_formed stored = true ->
  mergeInitialState false base stored = stored.
Proof. intros H. unfold mergeInitialState. by rewrite obj_spread_nil. Qed.

(** C5.  When the storage holds a blob under the option's name and the
    deserializer turns it into the record [hydrated], the configuration
    returned by the middleware has, with [merge] true or absent, the base
    initial state overlaid by [hydrated] (a key of [hydrated] has the
    hydrated value, any other key its base value), and with [merge] false
    exactly [hydrated].  Derivations and actions are kept. *)
Theorem localStoragePlugin_initial_state config options w blob hydrated :
  well_formed (initialState config) = true ->
  well_formed hydrated = true ->
  denied (localStorage w) = false ->
  obj_get (name options) (items (localStorage w)) = Some blob ->
  truthy_string blob = true ->
  default JSON_parse (deserialize options) blob = Normal hydrated ->
  exists config',
    localStoragePlugin JSON_stringify JSON_parse config options w = (Normal config', w) /\
    derived config' = derived config /\
    actions config' = actions config /\
    match merge options with
    | Some false => initialState config' = hydrated
    | _ =>
        (forall k,
           obj_get k (initialState config') =
             match obj_get k hydrated with
             | Some v => Some v
             | None => obj_get k (initialState config)
             end) /\
        (forall k,
           obj_has k (initialState config') =
             obj_has k hydrated || obj_has k (initialState config)) /\
        well_formed (initialState config') = true
    end.
Proof.
  intros Hbase Hhyd Hd Hget Ht Hde.
  unfold localStoragePlugin, bind.
  rewrite (loadStoredState_stored _ _ _ blob hydrated) by done.
  eexists. split; [reflexivity|]. split; [done|]. split; [done|].
  assert (let init' := mergeInitialState true (initialState config) hydrated in
          (forall k, obj_get k init' =
             match obj_get k hydrated with
             | Some v => Some v
             | None => obj_get k (initialState config)
             end) /\
          (forall k, obj_has k init' =
             obj_has k hydrated || obj_has k (initialState config)) /\
          well_formed init' = true) as Hmerge.
  { cbv zeta. rewrite mergeInitialState_merge by done. split_and!.
    - intros k. apply obj_get_spread. by apply well_formed_NoDup.
    - intros k. apply obj_has_spread.
    - apply well_formed_NoDup, obj_spread_NoDup. by apply well_formed_NoDup. }
  destruct (merge options) as [[|]|]; [exact Hmerge | | exact Hmerge].
  exact (mergeInitialState_replace (initialState config) hydrated Hhyd).
Qed.

(** X29.  When reading the storage or deserializing the blob throws an
    [Error], or a value [String] can convert, the middleware still
    returns a configuration: the error is caught, its text is logged,
    nothing is thrown, and with [merge] true or absent the initial state
    is the base initial state, so that [createStore] does on the result
    what it does on the base configuration. *)
Theorem localStoragePlugin_recovers_when_the_error_converts
    config options w e text :
  well_formed (initialState config) = true ->
  default true (merge options) = true ->
  hydration_error (name options) (default JSON_parse (deserialize options)) w = Some e ->
  error_text e = Normal text ->
  exists config',
    localStoragePlugin JSON_stringify JSON_parse config options w =
      (Normal config', (console_error load_label text w).2) /\
    initialState config' = initialState config /\
    derived config' = derived config /\
    actions config' = actions config /\
    forall w1, createStore config' w1 = createStore config w1.
Proof.
  intros Hbase Hmerge Herr Htext.
  unfold localStoragePlugin, bind.
  rewrite (loadStoredState_fails _ _ _ e text) by done. cbv zeta.
  rewrite Hmerge, mergeInitialState_merge by done.
  eexists. split; [reflexivity|]. by split_and!.
Qed.

Lemma prop_value_pure (p : prop) w : exists v, prop_value p w = (Normal v, w).
Proof. destruct p; by eexists. Qed.

(** Lines 133-136: reading the property changes nothing. *)
Lemma stateToPersist_pure (k : string) store w :
  exists r : obj value,
    (if js_in k store
     then match obj_get k store with
          | Some p => let! v := prop_value p in ret [(k, v)]
          | None => ret [(k, VUndefined)]
          end
     else ret []) w = (Normal r, w).
Proof.
  destruct (js_in k store); [|by eexists].
  destruct (obj_get k store) as [p|]; [|by eexists].
  unfold bind. destruct (prop_value_pure p w) as [v ->]. by eexists.
Qed.

(** The snapshot function of a store reads, and changes nothing. *)
Lemma store_getStateSnapshot_frame store opt w r w1 :
  store_getStateSnapshot store opt w = (r, w1) -> w1 = w.
Proof.
  unfold store_getStateSnapshot.
  destruct (obj_get "getStateSnapshot" store) as [[| | |sigs]|];
    try (by intros [= _ <-]).
Qed.

(** What saving does, case by case. *)
Lemma saveToStorage_run name ser store w :
  saveToStorage name ser store w =
    match store_getStateSnapshot store (Some {| withDerived := false |}) w with
    | (Normal snapshot, _) =>
        match ser snapshot with
        | Normal blob =>
            if denied (localStorage w)
            then (Normal tt, (console_error save_label "SecurityError" w).2)
            else (Normal tt, set_items (obj_set name blob (items (localStorage w))) w)
        | Throw e =>
            match error_text e with
            | Normal text => (Normal tt, (console_error save_label text w).2)
            | Throw e' => (Throw e', w)
            end
        end
    | (Throw e, _) =>
        match error_text e with
        | Normal text => (Normal tt, (console_error save_label text w).2)
        | Throw e' => (Throw e', w)
        end
    end.
Proof.
  unfold saveToStorage, try_catch, bind.
  destruct (store_getStateSnapshot store _ w) as [[snapshot|e] w1] eqn:Esnap;
    apply store_getStateSnapshot_frame in Esnap as ->.
  - unfold lift. destruct (ser snapshot) as [blob|e].
    + unfold setItem. by destruct (denied (localStorage w)).
    + by destruct (error_text e).
  - unfold lift. by destruct (error_text e).
Qed.

Lemma store_getStateSnapshot_throws store opt w e w1 :
  store_getStateSnapshot store opt w = (Throw e, w1) ->
  e = not_a_function "store.getStateSnapshot".
Proof.
  unfold store_getStateSnapshot.
  destruct (obj_get "getStateSnapshot" store) as [[| | |sigs]|];
    try (by intros [= <- _]).
Qed.

(** With a serializer that throws nothing but convertible values, saving
    never throws and touches neither cells nor effects. *)
Lemma saveToStorage_total name ser store w :
  throws_convertible ser ->
  exists w2,
    saveToStorage name ser store w = (Normal tt, w2) /\
    heap w2 = heap w /\ effects w2 = effects w.
Proof.
  intros Hc. rewrite saveToStorage_run.
  destruct (store_getStateSnapshot store _ w) as [[snapshot|e] w1] eqn:Esnap.
  - destruct (ser snapshot) as [blob|e] eqn:Eser.
    + destruct (denied (localStorage w)); by eexists.
    + destruct (convertible_text e (Hc _ _ Eser)) as [text ->]. by eexists.
  - apply store_getStateSnapshot_throws in Esnap as ->. by eexists.
Qed.

Lemma syncBody_total name ser init store : forall w,
  throws_convertible ser ->
  exists w2,
    syncBody name ser init store w = (Normal tt, w2) /\
    heap w2 = heap w /\ effects w2 = effects w.
Proof.
  unfold syncBody. induction init as [|[k v] init IH]; intros w Hc; simpl.
  - by eexists.
  - unfold bind at 1. unfold bind at 1.
    destruct (stateToPersist_pure k store w) as [r Hr]. simpl in *. rewrite Hr.
    destruct (saveToStorage_total name ser store w Hc) as (w1 & -> & Hh & He).
    destruct (IH w1 Hc) as (w2 & -> & Hh2 & He2).
    exists w2. split; [done|]. split; congruence.
Qed.

Lemma persistenceWiring_total name ser init store w :
  throws_convertible ser ->
  exists w2,
    persistenceWiring name ser init store w = (Normal tt, w2) /\
    heap w2 = heap w /\ effects w2 = S (effects w).
Proof.
  intros Hc. unfold persistenceWiring, effect.
  destruct (syncBody_total name ser init store
              (mkWorld (heap w) (localStorage w) (console w) (S (effects w))) Hc)
    as (w2 & -> & Hh & He).
  by exists w2.
Qed.

Lemma obj_set_twice {A} (k : string) (v : A) (o : obj A) :
  obj_set k v (obj_set k v o) = obj_set k v o.
Proof.
  induction o as [|[k' v'] o IH]; simpl.
  - by rewrite String.eqb_refl.
  - destruct (String.eqb k k') eqn:E; simpl.
    + by rewrite String.eqb_refl.
    + by rewrite E, IH.
Qed.

Lemma saveToStorage_saves name ser store w snapshot blob :
  store_getStateSnapshot store (Some {| withDerived := false |}) w =
    (Normal snapshot, w) ->
  ser snapshot = Normal blob ->
  denied (localStorage w) = false ->
  saveToStorage name ser store w =
    (Normal tt, set_items (obj_set name blob (items (localStorage w))) w).
Proof.
  intros Hsnap Hser Hd. unfold saveToStorage, try_catch, bind, lift, setItem.
  by rewrite Hsnap, Hser, Hd.
Qed.

(** On the store of a valid configuration, with a storage that can be
    written and a serializer that accepts the state, the effect body
    leaves the serialized state-only snapshot under [name]: once per key of
    the initial state, each time the same blob. *)
Lemma syncBody_saves config base name ser blob init : forall w,
  valid config = true ->
  denied (localStorage w) = false ->
  ser (current_values (fresh_cells base (initialState config)) w) = Normal blob ->
  syncBody name ser init (store_of config base) w =
    (Normal tt,
     match init with
     | [] => w
     | _ => set_items (obj_set name blob (items (localStorage w))) w
     end).
Proof.
  unfold syncBody. induction init as [|[k v] init IH]; intros w Hv Hd Hser; simpl.
  - done.
  - unfold bind at 1. unfold bind at 1.
    destruct (stateToPersist_pure k (store_of config base) w) as [r Hr].
    simpl in *. rewrite Hr.
    rewrite (saveToStorage_saves name ser _ w
               (current_values (fresh_cells base (initialState config)) w) blob);
      [| by apply store_snapshot_run | done | done].
    rewrite IH; [|done|done|exact Hser].
    destruct init; [done|].
    unfold set_items. simpl. by rewrite obj_set_twice.
Qed.

Lemma persistenceWiring_saves config base name ser blob init w :
  valid config = true ->
  init <> [] ->
  denied (localStorage w) = false ->
  ser (current_values (fresh_cells base (initialState config)) w) = Normal blob ->
  persistenceWiring name ser init (store_of config base) w =
    (Normal tt,
     mkWorld (heap w)
             (mkLocalStorage (obj_set name blob (items (localStorage w))) false)
             (console w) (S (effects w))).
Proof.
  intros Hv Hne Hd Hser. unfold persistenceWiring, effect.
  rewrite (syncBody_saves config base name ser blob); [|done|done|exact Hser].
  destruct init; [done|]. unfold set_items. simpl. by rewrite Hd.
Qed.

Lemma localStoragePlugin_total config options w :
  throws_convertible (default JSON_parse (deserialize options)) ->
  exists hydrated w',
    loadStoredState (name options) (default JSON_parse (deserialize options)) w =
      (Normal hydrated, w') /\
    localStoragePlugin JSON_stringify JSON_parse config options w =
      (Normal (mkConfig
                 (mergeInitialState (default true (merge options))
                    (initialState config) hydrated)
                 (derived config) (actions config)
                 (Some (newOnStoreCreated (onStoreCreated config) (name options)
                          (default JSON_stringify (serialize options))
                          (mergeInitialState (default true (merge options))
                             (initialState config) hydrated)))),
       w').
Proof.
  intros Hc.
  destruct (loadStoredState_total (name options)
              (default JSON_parse (deserialize options)) w Hc) as (h & w' & Hload).
  exists h, w'. split; [done|].
  unfold localStoragePlugin, bind. by rewrite Hload.
Qed.

(** X30.  With a deserializer and a serializer that throw nothing but
    [Error]s and values [String] can convert, the configuration returned
    by the middleware carries a hook.  Called with a store, the hook first
    does the persistence wiring, which registers one effect and completes
    normally; then, when the base configuration had a hook, that prior
    hook is called once, with the same store, in the world the wiring
    left, and its outcome is the outcome of the new hook.  Without a prior
    hook the new hook is the wiring alone.  On the store of the returned
    configuration, with a storage that can be written and a serializer
    that accepts the state, the wiring has saved the serialized state
    under the name by the time the prior hook runs. *)
Theorem chained_hook_runs_wiring_then_prior_hook config options w :
  throws_convertible (default JSON_parse (deserialize options)) ->
  throws_convertible (default JSON_stringify (serialize options)) ->
  exists config' w' hook,
    localStoragePlugin JSON_stringify JSON_parse config options w = (Normal config', w') /\
    onStoreCreated config' = Some hook /\
    (forall store w1, exists w2,
       persistenceWiring (name options)
         (default JSON_stringify (serialize options))
         (initialState config') store w1 = (Normal tt, w2) /\
       effects w2 = S (effects w1) /\
       heap w2 = heap w1 /\
       hook store w1 =
         match onStoreCreated config with
         | Some prior => prior store w2
         | None => (Normal tt, w2)
         end) /\
    (forall base w1 blob,
       constructible config' = true ->
       initialState config' <> [] ->
       denied (localStorage w1) = false ->
       default JSON_stringify (serialize options)
         (current_values (fresh_cells base (initialState config')) w1) = Normal blob ->
       hook (store_of config' base) w1 =
         let w2 := mkWorld (heap w1)
                     (mkLocalStorage
                        (obj_set (name options) blob (items (localStorage w1))) false)
                     (console w1) (S (effects w1)) in
         match onStoreCreated config with
         | Some prior => prior (store_of config' base) w2
         | None => (Normal tt, w2)
         end).
Proof.
  intros Hde Hser.
  destruct (localStoragePlugin_total config options w Hde) as (h & w' & _ & Hrun).
  eexists _, w', _. split; [exact Hrun|]. split; [reflexivity|].
  cbn [initialState]. split.
  - intros store w1.
    destruct (persistenceWiring_total (name options)
                (default JSON_stringify (serialize options))
                (mergeInitialState (default true (merge options))
                   (initialState config) h) store w1 Hser) as (w2 & Hw & Hh & He).
    exists w2. split; [exact Hw|]. split; [done|]. split; [done|].
    unfold newOnStoreCreated, bind. rewrite Hw.
    by destruct (onStoreCreated config).
  - intros base w1 blob (Hv & _)%constructible_parts Hne Hd Hblob. cbv zeta.
    unfold newOnStoreCreated, bind.
    erewrite persistenceWiring_saves; [|exact Hv|exact Hne|exact Hd|exact Hblob].
    by destruct (onStoreCreated config).
Qed.

End PersistenceProperties.

(** ** The middleware on the samples *)

Section PersistenceSamples.

Lemma localStoragePlugin_initial_state_witness :
  exists config',
    run_plugin stepper_config (counter_options None) (world_with "step=2") =
      (Normal config', world_with "step=2") /\
    obj_get "step" (initialState config') = Some (VNum 2) /\
    obj_get "count" (initialState config') = Some (VNum 0).
Proof.
  destruct (localStoragePlugin_initial_state no_stringify no_parse
              stepper_config (counter_options None) (world_with "step=2")
              "step=2" [("step", VNum 2)]
              eq_refl eq_refl eq_refl eq_refl eq_refl eq_refl)
    as (config' & Hrun & _ & _ & Hget & _).
  exists config'. split; [exact Hrun|].
  split; rewrite Hget; reflexivity.
Defined.

(** Merging, and replacing: with [merge: false] the base field [count],
    absent from the storage, is absent from the initial state. *)
Example stepper_merge :
  exists config',
    run_plugin stepper_config (counter_options None) (world_with "step=2") =
      (Normal config', world_with "step=2") /\
    initialState config' = [("count", VNum 0); ("step", VNum 2)].
Proof. eexists. split; reflexivity. Qed.

Example stepper_replace :
  exists config',
    run_plugin stepper_config (counter_options (Some false)) (world_with "step=2") =
      (Normal config', world_with "step=2") /\
    initialState config' = [("step", VNum 2)].
Proof. eexists. split; reflexivity. Qed.

Lemma localStoragePlugin_recovers_when_the_error_converts_witness :
  exists config',
    run_plugin counter_config (counter_options None) (world_with "garbage") =
      (Normal config',
       mkWorld [] (localStorage (world_with "garbage"))
               [(load_label, "Unexpected token")] 0) /\
    initialState config' = [("count", VNum 0)] /\
    forall w1, createStore config' w1 = createStore counter_config w1.
Proof.
  destruct (localStoragePlugin_recovers_when_the_error_converts no_stringify no_parse
              counter_config (counter_options None) (world_with "garbage")
              (JsError "Unexpected token") "Unexpected token"
              eq_refl eq_refl eq_refl eq_refl)
    as (config' & Hrun & Hinit & _ & _ & Hsame).
  exists config'. split; [exact Hrun|]. split; [exact Hinit | exact Hsame].
Defined.

(** C6.  The counter's configuration, [merge] absent, a stored blob, and
    a deserializer that throws an object without [toString] (such as
    [Object.create(null)]).  Deserializing throws, the handler is entered,
    and there [String(error)] throws a [TypeError]: it escapes the
    middleware, nothing is logged, and no configuration is returned from
    which a store could be constructed. *)
Theorem localStoragePlugin_conversion_error_escapes :
  default true (merge bare_deserialize_options) = true /\
  hydration_error (name bare_deserialize_options)
    (default no_parse (deserialize bare_deserialize_options))
    (world_with "garbage") = Some (JsThrown None) /\
  run_plugin counter_config bare_deserialize_options (world_with "garbage") =
    (Throw (JsError "Cannot convert object to primitive value"),
     world_with "garbage") /\
  (forall config' w',
     run_plugin counter_config bare_deserialize_options (world_with "garbage") <>
       (Normal config', w')) /\
  (create_persistent counter_config bare_deserialize_options (world_with "garbage")).1 =
    Throw (JsError "Cannot convert object to primitive value").
Proof. split_and!; [reflexivity..| |reflexivity]. intros config' w'. discriminate. Qed.

(** C7.  The configuration with the reporting hook, and a serializer that
    throws an object without [toString].  The middleware returns a
    configuration with a hook; called with the store created from it, the
    hook registers the effect, whose first run saves; the serializer
    throws, the handler of [saveToStorage] is entered, and there
    [String(error)] throws a [TypeError].  It leaves the effect and the
    hook: the prior hook, which would have logged a line, is not called. *)
Theorem localStoragePlugin_hook_skips_the_prior_hook :
  exists config' hook store w',
    run_plugin hooked_config bare_serialize_options world0 = (Normal config', world0) /\
    onStoreCreated hooked_config = Some report_hook /\
    onStoreCreated config' = Some hook /\
    createStore config' world0 = (Normal store, w') /\
    hook store w' =
      (Throw (JsError "Cannot convert object to primitive value"),
       mkWorld [VNum 0] (localStorage world0) [] 1) /\
    (forall w2, hook store w' <> report_hook store w2) /\
    (report_hook store (mkWorld [VNum 0] (localStorage world0) [] 1)).1 = Normal tt.
Proof.
  eexists _, _, _, _. split_and!; [reflexivity..| |reflexivity].
  intros w2. unfold report_hook, bind, getItem, console_error.
  destruct (denied (localStorage w2)); discriminate.
Qed.

(** Storage that cannot be read at all is survived the same way. *)
Example denied_storage_is_survived :
  exists config' w',
    run_plugin counter_config (counter_options None) world_denied =
      (Normal config', w') /\
    initialState config' = [("count", VNum 0)] /\
    console w' = [(load_label, "SecurityError")].
Proof. eexists _, _. split_and!; reflexivity. Qed.

(** The prior hook runs after the wiring: it finds in the storage what
    the wiring has just saved there, and it runs once. *)
Example prior_hook_runs_after_wiring :
  let w := (create_persistent hooked_config (counter_options None) world0).2 in
  items (localStorage w) = [("counter-store", "count=0")] /\
  console w = [("hook saw:", "count=0")] /\
  effects w = 1.
Proof. split_and!; reflexivity. Qed.

(** Hydration reaches the cells of the store created afterwards. *)
Example hydrated_store :
  let r := create_persistent hooked_config (counter_options None)
             (world_with "count=5") in
  heap r.2 = [VNum 5] /\
  items (localStorage r.2) = [("counter-store", "count=5")].
Proof. split; reflexivity. Qed.

End PersistenceSamples.

(** ** Further properties of the store factory *)

Section StoreCoverage.

Implicit Types (config : StoreConfig) (w : World) (k : string).

(** What [createStore] does on any configuration, valid or not. *)
Lemma createStore_run config w :
  exists stateSignals,
    (forall k, obj_has k stateSignals = obj_has k (initialState config)) /\
    createStore config w =
      (match conflict config with
       | Some k => Throw (JsError (conflict_message k))
       | None =>
           Normal (assemble stateSignals
                     (match derived config with
                      | Some d =>
                          obj_spread
                            (map (fun kf => (kf.1, PComputed kf.2 stateSignals)) d) []
                      | None => []
                      end)
                     (bindActions (actions config) stateSignals))
       end,
       set_heap (heap w ++ (initialState config).*2) w).
Proof.
  destruct (createStateSignals_any (initialState config) w) as (sigs & Hrun & Hsame).
  exists sigs. split; [done|].
  unfold createStore, bind, conflict. rewrite Hrun. unfold createDerived.
  destruct (derived config) as [d|]; [|done].
  rewrite <- (find_ext_in sigs (initialState config)) by done.
  destruct (List.find _ _) as [k'|] eqn:E.
  - by rewrite (derived_loop_throws sigs d k').
  - by rewrite derived_loop_ok.
Qed.

Lemma conflict_some config k :
  conflict config = Some k ->
  exists d, derived config = Some d /\ obj_has k d = true /\
            js_in k (initialState config) = true.
Proof.
  unfold conflict. destruct (derived config) as [d|]; [|done].
  intros [Hin Hk]%find_some. exists d. split; [done|]. split; [|done].
  apply obj_has_true. by apply list_elem_of_In.
Qed.

(** A derivation named like a state field is refused, or one before it. *)
Lemma collision_conflict config d k :
  derived config = Some d ->
  obj_has k d = true ->
  obj_has k (initialState config) = true ->
  exists k', conflict config = Some k'.
Proof.
  intros Hd Hkd Hki. unfold conflict. rewrite Hd.
  destruct (List.find _ _) as [k'|] eqn:E; [by eexists|].
  apply obj_has_true, list_elem_of_In in Hkd.
  pose proof (find_none _ _ E k Hkd) as Hf. simpl in Hf.
  unfold js_in in Hf. by rewrite Hki in Hf.
Qed.

(** X1.  For an [initialState] without a key [__proto__], [createStore]
    returns a store exactly when its check refuses no derivation, that
    is, when none is named like a state field or like a name every object
    inherits.  The only thing it ever throws is the conflict error, naming
    the first derivation refused.  In particular a configuration with a
    derivation named like a state field makes it throw the conflict
    error, after the cells were created. *)
Theorem createStore_succeeds_iff_no_conflict config w :
  proto_free (initialState config) = true ->
  ((exists store w', createStore config w = (Normal store, w')) <->
   conflict config = None) /\
  (forall e w', createStore config w = (Throw e, w') ->
     exists k d,
       conflict config = Some k /\ e = JsError (conflict_message k) /\
       derived config = Some d /\ obj_has k d = true /\
       js_in k (initialState config) = true) /\
  (forall d k,
     derived config = Some d ->
     obj_has k d = true ->
     obj_has k (initialState config) = true ->
     exists k',
       conflict config = Some k' /\
       createStore config w =
         (Throw (JsError (conflict_message k')),
          set_heap (heap w ++ (initialState config).*2) w)).
Proof.
  intros _. destruct (createStore_run config w) as (sigs & _ & Hrun).
  split; [split|split].
  - intros (store & w' & H). rewrite Hrun in H.
    by destruct (conflict config).
  - intros Hc. rewrite Hc in Hrun. by eexists _, _.
  - intros e w' H. rewrite Hrun in H.
    destruct (conflict config) as [k|] eqn:Hc; [|done].
    injection H as <- _.
    destruct (conflict_some _ _ Hc) as (d & Hd & Hkd & Hki). by exists k, d.
  - intros d k Hd Hkd Hki.
    destruct (collision_conflict config d k Hd Hkd Hki) as [k' Hk'].
    exists k'. split; [done|]. by apply createStore_refuses.
Qed.

Lemma createStore_succeeds_iff_no_conflict_witness :
  exists k',
    conflict conflict_config = Some k' /\
    createStore conflict_config world0 =
      (Throw (JsError (conflict_message k')),
       set_heap (heap world0 ++ (initialState conflict_config).*2) world0).
Proof.
  destruct (createStore_succeeds_iff_no_conflict conflict_config world0 eq_refl)
    as (_ & _ & H).
  exact (H [("foo", derivedFoo)] "foo" eq_refl eq_refl eq_refl).
Defined.

Lemma store_of_has config base k :
  obj_has k (store_of config base) =
    obj_has k (initialState config) ||
    obj_has_opt k (derived config) ||
    reserved k.
Proof.
  unfold store_of. rewrite !obj_has_set.
  assert (obj_has k (signal_props (fresh_cells base (initialState config)) ++
                     computed_props (derived config)
                       (fresh_cells base (initialState config))) =
          obj_has k (initialState config) || obj_has_opt k (derived config)) as ->.
  { unfold obj_has at 1. rewrite obj_get_app. unfold signal_props.
    rewrite (obj_get_fmap PSignal).
    pose proof (fresh_cells_has base (initialState config) k) as Hh.
    unfold obj_has in Hh at 1.
    destruct (obj_get k (fresh_cells base (initialState config))); simpl;
      rewrite <- Hh; [done|]. simpl.
    destruct (derived config) as [d|]; simpl; [|done].
    unfold obj_has. rewrite (obj_get_fmap (fun f => PComputed f _)).
    by destruct (obj_get k d). }
  unfold reserved.
  destruct (obj_has k (initialState config)), (obj_has_opt k (derived config)),
    (String.eqb k "actions"), (String.eqb k "getStateSnapshot"); done.
Qed.

(** X2.  The store object of a configuration [createStore] accepts has
    an own property for every state field, for every derivation, for
    [actions] and [getStateSnapshot], and no other own property. *)
Theorem store_properties_are_fields_derivations_and_two config w :
  constructible config = true ->
  exists store w',
    createStore config w = (Normal store, w') /\
    forall k,
      obj_has k store =
        obj_has k (initialState config) ||
        obj_has_opt k (derived config) ||
        reserved k.
Proof.
  intros Hc. eexists _, _. split; [by apply createStore_constructible|].
  intros k. apply store_of_has.
Qed.

Lemma store_properties_are_fields_derivations_and_two_witness :
  exists store w',
    createStore counter_config world0 = (Normal store, w') /\
    obj_has "count" store = true /\
    obj_has "doubled" store = true /\
    obj_has "actions" store = true /\
    obj_has "addAndGet" store = false.
Proof.
  destruct (store_properties_are_fields_derivations_and_two counter_config world0 eq_refl)
    as (store & w' & Hrun & Hhas).
  exists store, w'. split; [exact Hrun|].
  rewrite !Hhas. repeat split; reflexivity.
Defined.

Lemma store_of_computed config base d k f :
  valid config = true ->
  derived config = Some d -> obj_get k d = Some f -> reserved k = false ->
  obj_get k (store_of config base) =
    Some (PComputed f (fresh_cells base (initialState config))).
Proof.
  intros Hv Hd Hf Hr. pose proof (valid_parts _ Hv) as (_ & _ & _ & Hc).
  rewrite store_of_other by done. simpl.
  assert (obj_has k (initialState config) = false) as Hnot.
  { destruct (obj_has k (initialState config)) eqn:E; [|done].
    pose proof (collision_none_has config d k Hc Hd E) as Hn.
    unfold obj_has in Hn. by rewrite Hf in Hn. }
  rewrite <- (fresh_cells_has base) in Hnot. unfold obj_has in Hnot.
  destruct (obj_get k (fresh_cells base (initialState config))); [done|].
  rewrite Hd. simpl. rewrite (obj_get_fmap (fun f => PComputed f _)).
  by rewrite Hf.
Qed.

(** X3.  On the store of a valid configuration a derivation [k] that is
    not named [actions] or [getStateSnapshot] is the property [k] of the
    store object, and reading [store.k.value] in any later world gives the
    derivation's function applied to the store's signals and the values
    the cells hold then; reading changes nothing. *)
Theorem derived_property_follows_the_cells config d k f w store w' :
  valid config = true ->
  derived config = Some d ->
  obj_get k d = Some f ->
  reserved k = false ->
  createStore config w = (Normal store, w') ->
  let cells := fresh_cells (length (heap w)) (initialState config) in
  obj_get k store = Some (PComputed f cells) /\
  forall w1, read_prop store k w1 = (Normal (f cells (heap w1)), w1).
Proof.
  intros Hv Hd Hf Hr Hrun cells.
  destruct (createStore_valid_inv _ _ _ _ Hv Hrun) as [-> ->].
  pose proof (store_of_computed config (length (heap w)) d k f Hv Hd Hf Hr) as Hget.
  split; [exact Hget|].
  intros w1. unfold read_prop. by rewrite Hget.
Qed.

Lemma derived_property_follows_the_cells_witness :
  read_prop (store_of counter_config 0) "doubled"
      (mkWorld [VNum 21] (localStorage world0) [] 0) =
    (Normal (VNum 42), mkWorld [VNum 21] (localStorage world0) [] 0).
Proof.
  exact (proj2 (derived_property_follows_the_cells counter_config
                  [("doubled", doubled)] "doubled" doubled world0
                  (store_of counter_config 0)
                  (mkWorld [VNum 0] (localStorage world0) [] 0)
                  eq_refl eq_refl eq_refl eq_refl eq_refl)
               (mkWorld [VNum 21] (localStorage world0) [] 0)).
Defined.

Lemma current_values_frame (cells : obj loc) w w' :
  (forall l, l ∈ cells.*2 -> peek l w = peek l w') ->
  current_values cells w = current_values cells w'.
Proof.
  unfold current_values. induction cells as [|[k l] cells IH]; intros H; simpl; [done|].
  f_equal.
  - f_equal. apply H. simpl. left.
  - apply IH. intros l' Hl'. apply H. simpl. by right.
Qed.

Lemma fresh_cells_bound base init l :
  l ∈ (fresh_cells base init).*2 -> base <= l < base + length init.
Proof. rewrite fresh_cells_locs, elem_of_seq. lia. Qed.

Lemma peek_write_ne l l' v w :
  l <> l' -> peek l (write_signal l' v w).2 = peek l w.
Proof.
  intros Hne. unfold peek. simpl. by rewrite list_lookup_insert_ne.
Qed.

Lemma peek_set_heap_app l h' w :
  l < length (heap w) -> peek l (set_heap (heap w ++ h') w) = peek l w.
Proof.
  intros Hl. unfold peek. simpl. by rewrite lookup_app_l.
Qed.

(** X4.  Two stores created one after the other from configurations
    [createStore] accepts share no cell: after the second creation each
    store's snapshot is its own initial state, and assigning to a cell of
    the second store leaves every snapshot of the first as it was. *)
Theorem stores_share_no_cell c1 c2 w :
  constructible c1 = true ->
  constructible c2 = true ->
  exists s1 w1 s2 w2,
    createStore c1 w = (Normal s1, w1) /\
    createStore c2 w1 = (Normal s2, w2) /\
    store_getStateSnapshot s1 None w2 = (Normal (initialState c1), w2) /\
    store_getStateSnapshot s2 None w2 = (Normal (initialState c2), w2) /\
    forall i k v0 v wa,
      initialState c2 !! i = Some (k, v0) ->
      obj_get k (fresh_cells (length (heap w1)) (initialState c2)) =
        Some (length (heap w1) + i) /\
      (store_getStateSnapshot s1 None (write_signal (length (heap w1) + i) v wa).2).1 =
        (store_getStateSnapshot s1 None wa).1.
Proof.
  intros Hc1 Hc2.
  pose proof (constructible_parts _ Hc1) as (Hv1 & _).
  pose proof (constructible_parts _ Hc2) as (Hv2 & _).
  pose proof (valid_parts _ Hv1) as (Hnd1 & _).
  pose proof (valid_parts _ Hv2) as (Hnd2 & _).
  eexists _, _, _, _. split; [by apply createStore_constructible|].
  split; [by apply createStore_constructible|].
  set (w1 := set_heap (heap w ++ (initialState c1).*2) w).
  assert (length (heap w1) = length (heap w) + length (initialState c1)) as Hlen.
  { unfold w1. simpl. by rewrite length_app, length_fmap. }
  split_and!.
  - rewrite store_snapshot_run by done. f_equal. f_equal.
    etrans; [|apply (current_values_fresh w (initialState c1))]. fold w1.
    apply current_values_frame. intros l Hl%fresh_cells_bound.
    apply peek_set_heap_app. lia.
  - rewrite store_snapshot_run by done. f_equal. f_equal.
    apply current_values_fresh.
  - intros i k v0 v wa Hi. split.
    + eapply fresh_cells_lookup; [by apply well_formed_NoDup | done].
    + rewrite !store_snapshot_run by done. cbn [fst]. f_equal.
      apply current_values_frame. intros l Hl%fresh_cells_bound.
      apply peek_write_ne. lia.
Qed.

Lemma stores_share_no_cell_witness :
  exists s1 w1 s2 w2,
    createStore counter_config world0 = (Normal s1, w1) /\
    createStore test_config w1 = (Normal s2, w2) /\
    store_getStateSnapshot s1 None w2 = (Normal [("count", VNum 0)], w2) /\
    (store_getStateSnapshot s1 None (write_signal 1 (VStr "changed") w2).2).1 =
      (store_getStateSnapshot s1 None w2).1.
Proof.
  destruct (stores_share_no_cell counter_config test_config world0 eq_refl eq_refl)
    as (s1 & w1 & s2 & w2 & H1 & H2 & Hs1 & _ & Hw).
  exists s1, w1, s2, w2. split; [exact H1|]. split; [exact H2|].
  split; [exact Hs1|].
  injection H1 as _ <-.
  exact (proj2 (Hw 0 "foo" (VStr "bar") (VStr "changed") w2 eq_refl)).
Defined.

Lemma store_action_setField Object_method config base acts name field l args w1 :
  actions config = Some acts ->
  obj_get name acts = Some (setField field) ->
  obj_get field (fresh_cells base (initialState config)) = Some l ->
  store_action Object_method (store_of config base) name args w1 =
    (Normal VUndefined, (write_signal l (nth 0 args VUndefined) w1).2).
Proof.
  intros Ha Hn Hl.
  rewrite (store_action_run Object_method config base acts name (setField field))
    by done.
  unfold call_bound, bind, setField. simpl. by rewrite Hl.
Qed.

(** X5.  For a valid configuration whose action [name] is the setter of
    the state field [field] (the shape of the four actions of
    productListStore.ts), [store.actions.name(x, ...)] returns
    [undefined], and in the snapshot taken afterwards [field] has the
    value [x] ([undefined] when no argument was given) while every other
    field has the value it had before. *)
Theorem setter_action_updates_its_field_only
    Object_method config acts name field i v0 w store w' :
  valid config = true ->
  actions config = Some acts ->
  obj_get name acts = Some (setField field) ->
  initialState config !! i = Some (field, v0) ->
  createStore config w = (Normal store, w') ->
  forall args w1,
    length (heap w') <= length (heap w1) ->
    exists w2 before after,
      store_action Object_method store name args w1 = (Normal VUndefined, w2) /\
      store_getStateSnapshot store None w1 = (Normal before, w1) /\
      store_getStateSnapshot store None w2 = (Normal after, w2) /\
      obj_get field after = Some (nth 0 args VUndefined) /\
      forall k, k <> field -> obj_get k after = obj_get k before.
Proof.
  intros Hv Ha Hn Hi Hrun args w1 Hlen.
  pose proof (valid_parts _ Hv) as (Hnd & _).
  destruct (createStore_valid_inv _ _ _ _ Hv Hrun) as [-> ->].
  set (cells := fresh_cells (length (heap w)) (initialState config)).
  assert (obj_get field cells = Some (length (heap w) + i)) as Hcell.
  { eapply fresh_cells_lookup; [by apply well_formed_NoDup | done]. }
  assert (length (heap w) + i < length (heap w1)) as Hlt.
  { apply lookup_lt_Some in Hi. simpl in Hlen.
    rewrite length_app, length_fmap in Hlen. lia. }
  eexists _, _, _. split.
  { by apply (store_action_setField Object_method config _ acts name field
                (length (heap w) + i)). }
  split; [by apply store_snapshot_run|]. split; [by apply store_snapshot_run|].
  fold cells. split.
  - rewrite current_values_get, Hcell. simpl. f_equal. by apply peek_write.
  - intros k Hk. rewrite !current_values_get.
    destruct (obj_get k cells) as [l|] eqn:E; [|done]. simpl. f_equal.
    apply peek_write_ne. intros ->. apply Hk.
    eapply obj_get_loc_inj; [apply fresh_cells_NoDup | exact E | exact Hcell].
Qed.

Lemma setter_action_updates_its_field_only_witness :
  exists w2 before after,
    store_action no_method (store_of controls_config 0) "setSortBy" [VStr "price"]
        (createStore controls_config world0).2 = (Normal VUndefined, w2) /\
    store_getStateSnapshot (store_of controls_config 0) None
        (createStore controls_config world0).2 =
      (Normal before, (createStore controls_config world0).2) /\
    store_getStateSnapshot (store_of controls_config 0) None w2 = (Normal after, w2) /\
    obj_get "sortBy" after = Some (VStr "price") /\
    forall k, k <> "sortBy" -> obj_get k after = obj_get k before.
Proof.
  apply (setter_action_updates_its_field_only no_method
           controls_config productListActions
           "setSortBy" "sortBy" 0 (VStr "name") world0
           (store_of controls_config 0) (createStore controls_config world0).2
           eq_refl eq_refl eq_refl eq_refl eq_refl [VStr "price"]).
  simpl. lia.
Defined.

(** X6.  On the store of a configuration [createStore] accepts, a setter
    for a field the store does not have writes no cell.  When the name of
    the field is one every object inherits, the assignment lands on what
    the signals object inherits under that name and the action returns;
    for any other name the action throws. *)
Theorem setter_of_missing_field_throws
    Object_method config acts name field w store w' :
  constructible config = true ->
  actions config = Some acts ->
  obj_get name acts = Some (setField field) ->
  obj_has field (initialState config) = false ->
  createStore config w = (Normal store, w') ->
  forall args w1,
    store_action Object_method store name args w1 =
      if inherited field
      then (Normal VUndefined, w1)
      else (Throw (JsError "Cannot set properties of undefined (setting 'value')"), w1).
Proof.
  intros Hc Ha Hn Hf Hrun args w1.
  pose proof (constructible_parts _ Hc) as (Hv & _).
  destruct (createStore_valid_inv _ _ _ _ Hv Hrun) as [-> ->].
  rewrite (store_action_run Object_method config _ acts name (setField field))
    by done.
  unfold call_bound, bind, setField. simpl.
  rewrite <- (fresh_cells_has (length (heap w))) in Hf. unfold obj_has in Hf.
  destruct (obj_get field (fresh_cells _ _)); [done|].
  by destruct (inherited field).
Qed.

Lemma setter_of_missing_field_throws_witness :
  store_action no_method (store_of controls_config 0) "setProducts" [VNull]
      (createStore controls_config world0).2 =
    (Throw (JsError "Cannot set properties of undefined (setting 'value')"),
     (createStore controls_config world0).2).
Proof.
  exact (setter_of_missing_field_throws no_method controls_config productListActions
           "setProducts" "products" world0
           (store_of controls_config 0) (createStore controls_config world0).2
           eq_refl eq_refl eq_refl eq_refl eq_refl [VNull]
           (createStore controls_config world0).2).
Defined.

(** X7.  The action map of the store of a configuration [createStore]
    accepts has the configured names, in their order, as its own
    properties.  Calling a name that was not configured runs what the map
    inherits under that name, when it is a name every object inherits;
    for any other name the call throws a type error and changes
    nothing. *)
Theorem action_map_has_the_configured_names Object_method config w :
  constructible config = true ->
  exists store w' acts,
    createStore config w = (Normal store, w') /\
    obj_get "actions" store = Some (PActions acts) /\
    obj_keys acts =
      match actions config with Some a => obj_keys a | None => [] end /\
    forall name args w1,
      obj_has_opt name (actions config) = false ->
      store_action Object_method store name args w1 =
        if inherited name
        then Object_method acts name args w1
        else (Throw (not_a_function ("store.actions." ++ name)%string), w1).
Proof.
  intros Hc. eexists _, _, _. split; [by apply createStore_constructible|].
  split; [apply store_of_actions|]. split.
  - destruct (actions config) as [a|]; simpl; [|done].
    apply (obj_keys_fmap (fun f => mkBound f _)).
  - intros name args w1 Hno. unfold store_action. rewrite store_of_actions.
    destruct (actions config) as [a|]; simpl in *.
    + rewrite (obj_get_fmap (fun f => mkBound f _)).
      unfold obj_has in Hno. destruct (obj_get name a); [done|]. simpl.
      by destruct (inherited name).
    + by destruct (inherited name).
Qed.

Lemma action_map_has_the_configured_names_witness :
  exists store w' acts,
    createStore controls_config world0 = (Normal store, w') /\
    obj_get "actions" store = Some (PActions acts) /\
    obj_keys acts =
      ["setProducts"; "setSortBy"; "setSortDirection"; "setSelectedProductId"] /\
    store_action no_method store "reset" [] w' =
      (Throw (JsError "store.actions.reset is not a function"), w').
Proof.
  destruct (action_map_has_the_configured_names no_method controls_config world0 eq_refl)
    as (store & w' & acts & Hrun & Hact & Hkeys & Hcall).
  exists store, w', acts. split; [exact Hrun|]. split; [exact Hact|].
  split; [exact Hkeys|]. exact (Hcall "reset" [] w' eq_refl).
Defined.

(** A setter of the field [constructor], which no store of the product
    list has: the call returns and the cells are as before. *)
Example setter_of_an_inherited_name :
  store_action no_method
      (store_of (mkConfig [("sortBy", VStr "name")] None
                   (Some [("setConstructor", setField "constructor")]) None) 0)
      "setConstructor" [VNull] (mkWorld [VStr "name"] (localStorage world0) [] 0) =
    (Normal VUndefined, mkWorld [VStr "name"] (localStorage world0) [] 0).
Proof. reflexivity. Qed.

End StoreCoverage.

(** ** Further properties of the middleware *)

Section ComposeCoverage.

Implicit Types (m : middleware) (c : StoreConfig) (w : World).

(** X8.  Composing a list of transforms cut in two is composing the
    first part and then the second on its result: [compose] of any number
    of transforms is their left-to-right sequence. *)
Theorem compose_splits_anywhere ms1 ms2 c w :
  compose (ms1 ++ ms2) c w = (let! c1 := compose ms1 c in compose ms2 c1) w.
Proof. apply compose_app. Qed.

(** X9.  When a transform throws, the composition throws the same error
    in the same world, and no later transform runs. *)
Theorem compose_stops_at_the_first_throw ms1 m ms2 c w c1 w1 e w2 :
  compose ms1 c w = (Normal c1, w1) ->
  m c1 w1 = (Throw e, w2) ->
  compose (ms1 ++ m :: ms2) c w = (Throw e, w2).
Proof.
  intros H1 Hm. rewrite compose_app. unfold bind. rewrite H1.
  rewrite compose_cons. unfold bind. by rewrite Hm.
Qed.

Lemma compose_stops_at_the_first_throw_witness :
  compose [logging_middleware; failing_middleware; logging_middleware]
      counter_config world0 =
    (Throw (JsError "middleware failed"),
     mkWorld [] (localStorage world0) [("ran", "logging_middleware")] 0).
Proof.
  exact (compose_stops_at_the_first_throw [logging_middleware] failing_middleware
           [logging_middleware] counter_config world0 counter_config
           (mkWorld [] (localStorage world0) [("ran", "logging_middleware")] 0)
           (JsError "middleware failed")
           (mkWorld [] (localStorage world0) [("ran", "logging_middleware")] 0)
           eq_refl eq_refl).
Defined.

End ComposeCoverage.

Section PersistenceCoverage.

Variable JSON_stringify : obj value -> completion string.
Variable JSON_parse : string -> completion (obj value).

Implicit Types (config : StoreConfig) (options : LocalStorageOptions)
  (w : World) (store : Store).

(** X10.  What the middleware does with the storage, in full.  When
    reading and deserializing throw nothing, it returns a configuration
    and leaves the world as it is.  When one of them throws an [Error] or
    a value [String] can convert, it returns a configuration and logs one
    line, the text of the error; cells, storage and effects are as
    before.  When what was thrown cannot be converted, the conversion
    error is thrown by the middleware, and nothing is logged. *)
Theorem localStoragePlugin_outcomes config options w :
  match hydration_error (name options)
          (default JSON_parse (deserialize options)) w with
  | None =>
      exists config',
        localStoragePlugin JSON_stringify JSON_parse config options w =
          (Normal config', w)
  | Some e =>
      match error_text e with
      | Normal text =>
          exists config',
            localStoragePlugin JSON_stringify JSON_parse config options w =
              (Normal config',
               mkWorld (heap w) (localStorage w)
                       (console w ++ [(load_label, text)]) (effects w))
      | Throw e' =>
          localStoragePlugin JSON_stringify JSON_parse config options w =
            (Throw e', w)
      end
  end.
Proof.
  unfold localStoragePlugin, bind.
  destruct (hydration_error _ _ w) as [e|] eqn:E.
  - destruct (error_text e) as [text|e'] eqn:Et.
    + rewrite (loadStoredState_fails _ _ _ e text E Et). by eexists.
    + by rewrite (loadStoredState_escapes _ _ _ e e' E Et).
  - destruct (loadStoredState_quiet _ _ _ E) as [h ->]. by eexists.
Qed.

Lemma loadStoredState_nothing name de w :
  denied (localStorage w) = false ->
  match obj_get name (items (localStorage w)) with
  | Some blob => negb (truthy_string blob)
  | None => true
  end = true ->
  loadStoredState name de w = (Normal [], w).
Proof.
  intros Hd Hn. unfold loadStoredState, try_catch, bind, getItem. rewrite Hd.
  destruct (obj_get name (items (localStorage w))) as [blob|]; [|done].
  by destruct (truthy_string blob).
Qed.

(** X11.  When the storage holds nothing under the option's name, or the
    empty string, the deserializer is not called and nothing is logged;
    the initial state is the base one with [merge] true or absent, and
    the empty record, without any field, with [merge] false. *)
Theorem localStoragePlugin_with_nothing_stored config options w :
  well_formed (initialState config) = true ->
  denied (localStorage w) = false ->
  match obj_get (name options) (items (localStorage w)) with
  | Some blob => negb (truthy_string blob)
  | None => true
  end = true ->
  exists config',
    localStoragePlugin JSON_stringify JSON_parse config options w =
      (Normal config', w) /\
    initialState config' =
      if default true (merge options) then initialState config else [].
Proof.
  intros Hwf Hd Hn. unfold localStoragePlugin, bind.
  rewrite loadStoredState_nothing by done.
  eexists. split; [reflexivity|]. cbn [initialState].
  destruct (default true (merge options)); [|done].
  by rewrite mergeInitialState_merge.
Qed.

(** X12.  Saving never touches cells or effects, and has three
    outcomes.  The snapshot was taken, serialized and written: the storage
    holds the blob under the name and nothing was logged.  Or one of these
    steps threw an [Error] or a value [String] can convert: the storage is
    as before and one line was logged.  Or the serializer threw a value
    that cannot be converted: the conversion error is thrown by
    [saveToStorage], and the world is as before. *)
Theorem saveToStorage_saves_logs_or_rethrows name ser store w :
  (exists snapshot blob,
     store_getStateSnapshot store (Some {| withDerived := false |}) w =
       (Normal snapshot, w) /\
     ser snapshot = Normal blob /\
     denied (localStorage w) = false /\
     saveToStorage name ser store w =
       (Normal tt, set_items (obj_set name blob (items (localStorage w))) w)) \/
  (exists text,
     saveToStorage name ser store w =
       (Normal tt,
        mkWorld (heap w) (localStorage w)
                (console w ++ [(save_label, text)]) (effects w))) \/
  (exists snapshot e e',
     store_getStateSnapshot store (Some {| withDerived := false |}) w =
       (Normal snapshot, w) /\
     ser snapshot = Throw e /\
     error_text e = Throw e' /\
     saveToStorage name ser store w = (Throw e', w)).
Proof.
  rewrite saveToStorage_run.
  destruct (store_getStateSnapshot store _ w) as [[snapshot|e] w1] eqn:Esnap.
  - apply store_getStateSnapshot_frame in Esnap as Hw. subst w1.
    destruct (ser snapshot) as [blob|e] eqn:Eser.
    + destruct (denied (localStorage w)) eqn:Ed.
      * right. left. by eexists.
      * left. by exists snapshot, blob.
    + destruct (error_text e) as [text|e'] eqn:Et.
      * right. left. by eexists.
      * right. right. by exists snapshot, e, e'.
  - apply store_getStateSnapshot_throws in Esnap as ->.
    right. left. by eexists.
Qed.

End PersistenceCoverage.

Lemma localStoragePlugin_with_nothing_stored_witness :
  exists config',
    run_plugin stepper_config (counter_options (Some false)) world0 =
      (Normal config', world0) /\
    initialState config' = [].
Proof.
  exact (localStoragePlugin_with_nothing_stored no_stringify no_parse
           stepper_config (counter_options (Some false)) world0
           eq_refl eq_refl eq_refl).
Defined.

Section PersistenceEndToEnd.

Variable JSON_stringify : obj value -> completion string.
Variable JSON_parse : string -> completion (obj value).

Implicit Types (config : StoreConfig) (options : LocalStorageOptions)
  (w : World) (store : Store).

(** X13.  On the store just created from a valid configuration with at
    least one state field, with a storage that can be written and a
    serializer that accepts the initial state, the persistence wiring
    registers one effect and leaves the serialized initial state in the
    storage under the name; nothing is logged, no cell is touched. *)
Theorem first_effect_run_saves_the_initial_state config w store w' name ser blob :
  valid config = true ->
  initialState config <> [] ->
  createStore config w = (Normal store, w') ->
  denied (localStorage w) = false ->
  ser (initialState config) = Normal blob ->
  persistenceWiring name ser (initialState config) store w' =
    (Normal tt,
     mkWorld (heap w')
             (mkLocalStorage (obj_set name blob (items (localStorage w))) false)
             (console w) (S (effects w))).
Proof.
  intros Hv Hne Hrun Hd Hser.
  destruct (createStore_valid_inv _ _ _ _ Hv Hrun) as [-> ->].
  rewrite (persistenceWiring_saves config _ name ser blob); [done|done|done|done|].
  by rewrite current_values_fresh.
Qed.

Lemma saveToStorage_denied config base name ser blob w :
  valid config = true ->
  denied (localStorage w) = true ->
  ser (current_values (fresh_cells base (initialState config)) w) = Normal blob ->
  saveToStorage name ser (store_of config base) w =
    (Normal tt,
     mkWorld (heap w) (localStorage w)
             (console w ++ [(save_label, "SecurityError")]) (effects w)).
Proof.
  intros Hv Hd Hser. unfold saveToStorage, try_catch, bind, lift, setItem.
  rewrite store_snapshot_run by done. by rewrite Hser, Hd.
Qed.

Lemma syncBody_denied config base name ser blob init : forall w,
  valid config = true ->
  denied (localStorage w) = true ->
  ser (current_values (fresh_cells base (initialState config)) w) = Normal blob ->
  syncBody name ser init (store_of config base) w =
    (Normal tt,
     mkWorld (heap w) (localStorage w)
             (console w ++ replicate (length init) (save_label, "SecurityError"))
             (effects w)).
Proof.
  unfold syncBody. induction init as [|[k v] init IH]; intros w Hv Hd Hser; simpl.
  - rewrite app_nil_r. by destruct w.
  - unfold bind at 1. unfold bind at 1.
    destruct (stateToPersist_pure k (store_of config base) w) as [r Hr].
    simpl in *. rewrite Hr.
    rewrite (saveToStorage_denied config base name ser blob) by done.
    rewrite IH; [|done|done|exact Hser].
    simpl. by rewrite <- app_assoc.
Qed.

(** X14.  The effect body saves once per key of the initial state, not
    once per run: on the store of a valid configuration, with a storage
    whose access is denied, one run logs as many save failures as the
    initial state has keys (none for an empty initial state), and still
    completes normally. *)
Theorem effect_body_saves_once_per_key config base name ser blob init w :
  valid config = true ->
  denied (localStorage w) = true ->
  ser (current_values (fresh_cells base (initialState config)) w) = Normal blob ->
  persistenceWiring name ser init (store_of config base) w =
    (Normal tt,
     mkWorld (heap w) (localStorage w)
             (console w ++ replicate (length init) (save_label, "SecurityError"))
             (S (effects w))).
Proof.
  intros Hv Hd Hser. unfold persistenceWiring, effect.
  by rewrite (syncBody_denied config base name ser blob).
Qed.

(** X15.  Round trip.  After a run of the persistence effect that could
    save, hydrating any base configuration under the same name, with a
    deserializer that inverts the serializer on the saved snapshot, reads
    that snapshot back: nothing is logged, every field of the snapshot has
    its saved value in the new initial state, which is the snapshot
    itself when [merge] is false. *)
Theorem persisted_snapshot_is_hydrated config base options init w blob fresh :
  valid config = true ->
  init <> [] ->
  denied (localStorage w) = false ->
  default JSON_stringify (serialize options)
    (current_values (fresh_cells base (initialState config)) w) = Normal blob ->
  truthy_string blob = true ->
  default JSON_parse (deserialize options) blob =
    Normal (current_values (fresh_cells base (initialState config)) w) ->
  well_formed (initialState fresh) = true ->
  exists w2 config',
    persistenceWiring (name options)
      (default JSON_stringify (serialize options)) init
      (store_of config base) w = (Normal tt, w2) /\
    localStoragePlugin JSON_stringify JSON_parse fresh options w2 =
      (Normal config', w2) /\
    (forall k v,
       obj_get k (current_values (fresh_cells base (initialState config)) w) = Some v ->
       obj_get k (initialState config') = Some v) /\
    (merge options = Some false ->
     initialState config' =
       current_values (fresh_cells base (initialState config)) w).
Proof.
  set (snapshot := current_values (fresh_cells base (initialState config)) w).
  intros Hv Hne Hd Hser Ht Hde Hwf.
  pose proof (valid_parts _ Hv) as (Hnd & _).
  assert (well_formed snapshot = true) as Hsnap.
  { apply well_formed_NoDup. unfold snapshot.
    by rewrite current_values_keys, fresh_cells_keys. }
  eexists _, _. split.
  { by apply (persistenceWiring_saves config base (name options) _ blob). }
  unfold localStoragePlugin, bind.
  rewrite (loadStoredState_stored _ _ _ blob snapshot);
    [| done | simpl; apply obj_get_set_eq | done | done].
  split; [reflexivity|]. cbn [initialState]. split.
  - intros k v Hk. destruct (default true (merge options)).
    + rewrite mergeInitialState_merge by done.
      rewrite obj_get_spread by by apply well_formed_NoDup. by rewrite Hk.
    + by rewrite mergeInitialState_replace.
  - intros ->. by rewrite mergeInitialState_replace.
Qed.

(** X16.  Two persistence middlewares whose serializers and
    deserializers throw nothing but [Error]s and values [String] can
    convert, composed, leave one hook that does the wiring of the second,
    then the wiring of the first, then calls the hook of the base
    configuration, once, if there is one: two effects are registered and
    no hook is lost. *)
Theorem stacked_persistence_hooks_all_run config o1 o2 w :
  throws_convertible (default JSON_parse (deserialize o1)) ->
  throws_convertible (default JSON_parse (deserialize o2)) ->
  throws_convertible (default JSON_stringify (serialize o1)) ->
  throws_convertible (default JSON_stringify (serialize o2)) ->
  exists c1 w1 c2 w2 hook,
    localStoragePlugin JSON_stringify JSON_parse config o1 w = (Normal c1, w1) /\
    localStoragePlugin JSON_stringify JSON_parse c1 o2 w1 = (Normal c2, w2) /\
    compose [persist JSON_stringify JSON_parse o1;
             persist JSON_stringify JSON_parse o2] config w = (Normal c2, w2) /\
    onStoreCreated c2 = Some hook /\
    forall store wa, exists wb wc,
      persistenceWiring (name o2) (default JSON_stringify (serialize o2))
        (initialState c2) store wa = (Normal tt, wb) /\
      persistenceWiring (name o1) (default JSON_stringify (serialize o1))
        (initialState c1) store wb = (Normal tt, wc) /\
      effects wc = S (S (effects wa)) /\
      hook store wa =
        match onStoreCreated config with
        | Some prior => prior store wc
        | None => (Normal tt, wc)
        end.
Proof.
  intros Hd1 Hd2 Hs1 Hs2.
  destruct (localStoragePlugin_total JSON_stringify JSON_parse config o1 w Hd1)
    as (h1 & w1 & _ & H1).
  match type of H1 with
  | _ = (Normal ?c1, _) =>
      destruct (localStoragePlugin_total JSON_stringify JSON_parse c1 o2 w1 Hd2)
        as (h2 & w2 & _ & H2)
  end.
  eexists _, w1, _, w2, _. split; [exact H1|]. split; [exact H2|].
  split.
  { unfold compose, persist. simpl. unfold bind. rewrite H1, H2. done. }
  split; [reflexivity|].
  intros store wa. cbn [initialState onStoreCreated].
  destruct (persistenceWiring_total (name o2)
              (default JSON_stringify (serialize o2))
              (mergeInitialState (default true (merge o2))
                 (mergeInitialState (default true (merge o1))
                    (initialState config) h1) h2) store wa Hs2)
    as (wb & Hb & _ & Heb).
  destruct (persistenceWiring_total (name o1)
              (default JSON_stringify (serialize o1))
              (mergeInitialState (default true (merge o1))
                 (initialState config) h1) store wb Hs1)
    as (wc & Hc & _ & Hec).
  exists wb, wc. split; [exact Hb|]. split; [exact Hc|]. split; [lia|].
  unfold newOnStoreCreated at 1. unfold bind. rewrite Hb.
  unfold newOnStoreCreated. unfold bind. rewrite Hc.
  by destruct (onStoreCreated config).
Qed.

(** X17.  The hydrated record is not checked against the derivations:
    when the stored record has a key that is the name of a derivation,
    the middleware returns normally, and [createStore] on its result
    throws the conflict error, naming the first derivation its check
    refuses.  Neither record has a key [__proto__]. *)
Theorem hydrated_key_can_collide_with_a_derivation
    config options w blob hydrated d k :
  proto_free (initialState config) = true ->
  proto_free hydrated = true ->
  denied (localStorage w) = false ->
  obj_get (name options) (items (localStorage w)) = Some blob ->
  truthy_string blob = true ->
  default JSON_parse (deserialize options) blob = Normal hydrated ->
  derived config = Some d ->
  obj_has k d = true ->
  obj_has k hydrated = true ->
  exists config' k',
    localStoragePlugin JSON_stringify JSON_parse config options w =
      (Normal config', w) /\
    obj_has k (initialState config') = true /\
    conflict config' = Some k' /\
    obj_has k' d = true /\
    js_in k' (initialState config') = true /\
    proto_free (initialState config') = true /\
    forall w1,
      createStore config' w1 =
        (Throw (JsError (conflict_message k')),
         set_heap (heap w1 ++ (initialState config').*2) w1).
Proof.
  intros Hpb Hph Hd Hget Ht Hde Hder Hkd Hkh.
  unfold localStoragePlugin, bind.
  rewrite (loadStoredState_stored _ _ _ blob hydrated) by done.
  set (init' := mergeInitialState _ _ _).
  set (hook := newOnStoreCreated _ _ _ _).
  set (config' := mkConfig init' (derived config) (actions config) (Some hook)).
  assert (obj_has k init' = true) as Hk.
  { unfold init', mergeInitialState.
    destruct (default true (merge options)); rewrite !obj_has_spread, Hkh; done. }
  destruct (collision_conflict config' d k Hder Hkd Hk) as [k' Hcol].
  destruct (conflict_some _ _ Hcol) as (d' & Hd' & Hkd' & Hki').
  assert (d' = d) as -> by (simpl in Hd'; congruence).
  assert (proto_free init' = true) as Hp.
  { unfold proto_free in *. unfold init', mergeInitialState.
    destruct (default true (merge options)); rewrite !obj_has_spread; simpl;
      by destruct (obj_has "__proto__" hydrated),
                  (obj_has "__proto__" (initialState config)). }
  exists config', k'. split_and!; try done.
  intros w1. by apply createStore_refuses.
Qed.

(** X18.  Hydration reaches the cells: when [createStore] accepts the
    configuration returned by the middleware, the store created from it
    has one cell per field of the merged initial state, and its first
    snapshot shows, for every key of the hydrated record, the hydrated
    value. *)
Theorem hydrated_values_are_the_first_snapshot
    config options w blob hydrated :
  well_formed (initialState config) = true ->
  well_formed hydrated = true ->
  denied (localStorage w) = false ->
  obj_get (name options) (items (localStorage w)) = Some blob ->
  truthy_string blob = true ->
  default JSON_parse (deserialize options) blob = Normal hydrated ->
  constructible (mkConfig (mergeInitialState (default true (merge options))
                             (initialState config) hydrated)
                          (derived config) (actions config) None) = true ->
  exists config' store w' snapshot,
    localStoragePlugin JSON_stringify JSON_parse config options w =
      (Normal config', w) /\
    createStore config' w = (Normal store, w') /\
    store_getStateSnapshot store None w' = (Normal snapshot, w') /\
    snapshot = initialState config' /\
    forall k v, obj_get k hydrated = Some v -> obj_get k snapshot = Some v.
Proof.
  intros Hwf Hh Hd Hget Ht Hde Hc.
  unfold localStoragePlugin, bind.
  rewrite (loadStoredState_stored _ _ _ blob hydrated) by done.
  set (init' := mergeInitialState _ _ _) in *.
  set (hook := newOnStoreCreated _ _ _ _).
  set (config' := mkConfig init' (derived config) (actions config) (Some hook)).
  assert (constructible config' = true) as Hc' by exact Hc.
  pose proof (constructible_parts _ Hc') as (Hv' & _).
  eexists config', _, _, _. split; [done|].
  split; [by apply createStore_constructible|].
  split; [by apply store_snapshot_run|].
  assert (current_values (fresh_cells (length (heap w)) (initialState config'))
            (set_heap (heap w ++ (initialState config').*2) w) = init') as Hsnap.
  { apply current_values_fresh. }
  split; [exact Hsnap|]. rewrite Hsnap.
  intros k v Hk. unfold init', mergeInitialState.
  destruct (default true (merge options)).
  - rewrite obj_spread_nil by done.
    rewrite obj_get_spread by by apply well_formed_NoDup. by rewrite Hk.
  - by rewrite obj_spread_nil.
Qed.

End PersistenceEndToEnd.

(** ** The further properties on the samples *)

Lemma first_effect_run_saves_the_initial_state_witness :
  persistenceWiring "counter-store" serialize_count (initialState counter_config)
      (store_of counter_config 0) (createStore counter_config world0).2 =
    (Normal tt,
     mkWorld [VNum 0] (mkLocalStorage [("counter-store", "count=0")] false) [] 1).
Proof.
  apply (first_effect_run_saves_the_initial_state counter_config world0
           (store_of counter_config 0) (createStore counter_config world0).2
           "counter-store" serialize_count "count=0");
    [reflexivity | discriminate | reflexivity | reflexivity | reflexivity].
Defined.

Lemma effect_body_saves_once_per_key_witness :
  persistenceWiring "counter-store" serialize_count (initialState stepper_config)
      (store_of stepper_config 0)
      (mkWorld [VNum 0; VNum 1] (mkLocalStorage [] true) [] 0) =
    (Normal tt,
     mkWorld [VNum 0; VNum 1] (mkLocalStorage [] true)
             [(save_label, "SecurityError"); (save_label, "SecurityError")] 1).
Proof.
  exact (effect_body_saves_once_per_key stepper_config 0 "counter-store"
           serialize_count "count=0" (initialState stepper_config)
           (mkWorld [VNum 0; VNum 1] (mkLocalStorage [] true) [] 0)
           eq_refl eq_refl eq_refl).
Defined.

Lemma persisted_snapshot_is_hydrated_witness :
  exists w2 config',
    persistenceWiring "counter-store" serialize_count (initialState counter_config)
      (store_of counter_config 0)
      (mkWorld [VNum 5] (localStorage world0) [] 0) = (Normal tt, w2) /\
    run_plugin counter_config (counter_options None) w2 = (Normal config', w2) /\
    obj_get "count" (initialState config') = Some (VNum 5).
Proof.
  destruct (persisted_snapshot_is_hydrated no_stringify no_parse
              counter_config 0 (counter_options None)
              (initialState counter_config)
              (mkWorld [VNum 5] (localStorage world0) [] 0) "count=5"
              counter_config)
    as (w2 & config' & Hw & Hp & Hget & _);
    [reflexivity | discriminate | reflexivity | reflexivity | reflexivity
    | reflexivity | reflexivity |].
  exists w2, config'. split; [exact Hw|]. split; [exact Hp|].
  apply Hget. reflexivity.
Defined.

Lemma hydrated_key_can_collide_with_a_derivation_witness :
  exists config' k',
    run_plugin step_derived_config (counter_options None) (world_with "step=2") =
      (Normal config', world_with "step=2") /\
    obj_has "step" (initialState config') = true /\
    conflict config' = Some k' /\
    obj_has k' [("step", doubled)] = true /\
    js_in k' (initialState config') = true /\
    proto_free (initialState config') = true /\
    forall w1,
      createStore config' w1 =
        (Throw (JsError (conflict_message k')),
         set_heap (heap w1 ++ (initialState config').*2) w1).
Proof.
  exact (hydrated_key_can_collide_with_a_derivation no_stringify no_parse
           step_derived_config (counter_options None) (world_with "step=2")
           "step=2" [("step", VNum 2)] [("step", doubled)] "step"
           eq_refl eq_refl eq_refl eq_refl eq_refl eq_refl eq_refl eq_refl eq_refl).
Defined.

Lemma serialize_count_convertible : throws_convertible serialize_count.
Proof.
  intros snapshot e. unfold serialize_count.
  repeat case_match; try discriminate; by intros [= <-].
Qed.

Lemma deserialize_count_convertible : throws_convertible deserialize_count.
Proof.
  intros blob e. unfold deserialize_count.
  repeat case_match; try discriminate; by intros [= <-].
Qed.

Lemma stacked_persistence_hooks_all_run_witness :
  exists c1 w1 c2 w2 hook,
    run_plugin hooked_config (counter_options None) world0 = (Normal c1, w1) /\
    run_plugin c1 backup_options w1 = (Normal c2, w2) /\
    compose [persist no_stringify no_parse (counter_options None);
             persist no_stringify no_parse backup_options] hooked_config world0 =
      (Normal c2, w2) /\
    onStoreCreated c2 = Some hook /\
    forall store wa, exists wb wc,
      persistenceWiring "backup-store" serialize_count (initialState c2) store wa =
        (Normal tt, wb) /\
      persistenceWiring "counter-store" serialize_count (initialState c1) store wb =
        (Normal tt, wc) /\
      effects wc = S (S (effects wa)) /\
      hook store wa = report_hook store wc.
Proof.
  exact (stacked_persistence_hooks_all_run no_stringify no_parse
           hooked_config (counter_options None) backup_options world0
           deserialize_count_convertible deserialize_count_convertible
           serialize_count_convertible serialize_count_convertible).
Defined.

Lemma chained_hook_runs_wiring_then_prior_hook_witness :
  exists config' w' hook,
    run_plugin hooked_config (counter_options None) world0 = (Normal config', w') /\
    onStoreCreated config' = Some hook /\
    forall store w1, exists w2,
      persistenceWiring "counter-store" serialize_count (initialState config')
        store w1 = (Normal tt, w2) /\
      hook store w1 = report_hook store w2.
Proof.
  destruct (chained_hook_runs_wiring_then_prior_hook no_stringify no_parse
              hooked_config (counter_options None) world0
              deserialize_count_convertible serialize_count_convertible)
    as (config' & w' & hook & Hrun & Hhook & Hall & _).
  exists config', w', hook. split; [exact Hrun|]. split; [exact Hhook|].
  intros store w1. destruct (Hall store w1) as (w2 & Hw & _ & _ & Hh).
  exists w2. split; [exact Hw | exact Hh].
Defined.

Lemma hydrated_values_are_the_first_snapshot_witness :
  exists config' store w' snapshot,
    run_plugin stepper_config (counter_options None) (world_with "step=2") =
      (Normal config', world_with "step=2") /\
    createStore config' (world_with "step=2") = (Normal store, w') /\
    store_getStateSnapshot store None w' = (Normal snapshot, w') /\
    obj_get "step" snapshot = Some (VNum 2).
Proof.
  destruct (hydrated_values_are_the_first_snapshot no_stringify no_parse
              stepper_config (counter_options None) (world_with "step=2")
              "step=2" [("step", VNum 2)]
              eq_refl eq_refl eq_refl eq_refl eq_refl eq_refl eq_refl)
    as (config' & store & w' & snapshot & Hp & Hc & Hs & _ & Hget).
  exists config', store, w', snapshot.
  split; [exact Hp|]. split; [exact Hc|]. split; [exact Hs|].
  apply Hget. reflexivity.
Defined.

(** ** Properties of the product list's derivations *)

Section ProductListCoverage.

Import QArith Lqa Sorted.
Import ProductListStore.

Local Open Scope Q_scope.

Lemma sort_insert_perm {A} (cmp : A -> A -> Q) (x : A) (l : list A) :
  sort_insert cmp x l ≡ₚ x :: l.
Proof.
  induction l as [|y l IH]; simpl; [done|].
  destruct (Qle_bool (cmp x y) 0); [done|].
  rewrite IH. apply Permutation_swap.
Qed.

Lemma Array_sort_perm {A} (cmp : A -> A -> Q) (l : list A) :
  Array_sort cmp l ≡ₚ l.
Proof.
  induction l as [|x l IH]; simpl; [done|].
  by rewrite sort_insert_perm, IH.
Qed.

(** A comparator that decides a transitive relation, one way or the
    other, sorts into that relation. *)
Lemma Array_sort_sorted {A} (cmp : A -> A -> Q) (R : A -> A -> Prop) :
  (forall a b, Qle_bool (cmp a b) 0 = true -> R a b) ->
  (forall a b, Qle_bool (cmp a b) 0 = false -> R b a) ->
  (forall a b c, R a b -> R b c -> R a c) ->
  forall l, StronglySorted R (Array_sort cmp l).
Proof.
  intros Hle Hgt Htrans.
  assert (forall x l, StronglySorted R l -> StronglySorted R (sort_insert cmp x l)) as Hins.
  { intros x l. induction l as [|y l IH]; intros Hs; simpl.
    - repeat constructor.
    - apply StronglySorted_inv in Hs as [Hs Hall].
      destruct (Qle_bool (cmp x y) 0) eqn:E.
      + constructor; [by constructor|].
        constructor; [by apply Hle|].
        eapply Forall_impl; [exact Hall|]. intros z Hz.
        eapply Htrans; [by apply Hle | exact Hz].
      + constructor; [by apply IH|].
        rewrite sort_insert_perm. constructor; [by apply Hgt | exact Hall]. }
  induction l as [|x l IH]; simpl; [constructor | by apply Hins].
Qed.

(** A list whose neighbours are in comparator order is left as it is. *)
Lemma Array_sort_keeps_sorted {A} (cmp : A -> A -> Q) (l : list A) :
  Sorted (fun a b => cmp a b <= 0) l -> Array_sort cmp l = l.
Proof.
  induction l as [|x l IH]; intros Hs; simpl; [done|].
  apply Sorted_inv in Hs as [Hs Hhd]. rewrite IH by done.
  destruct Hhd as [|y l' Hxy]; simpl; [done|].
  apply Qle_bool_iff in Hxy. by rewrite Hxy.
Qed.

Lemma Qle_bool_false (x y : Q) : Qle_bool x y = false -> y < x.
Proof.
  intros H. apply Qnot_le_lt. intros Hle%Qle_bool_iff. congruence.
Qed.

(** X19.  Whatever the sort field, the direction and the collation,
    [sortedProducts] is a rearrangement of [products]: the same products,
    each as many times, so none is lost, added or repeated. *)
Theorem sortedProducts_is_a_rearrangement localeCompare state :
  sortedProducts localeCompare state ≡ₚ products state /\
  length (sortedProducts localeCompare state) = length (products state) /\
  forall p, p ∈ sortedProducts localeCompare state <-> p ∈ products state.
Proof.
  pose proof (Array_sort_perm (compareProducts localeCompare state) (products state)) as H.
  split; [exact H|]. split.
  - by apply Permutation_length.
  - intros p. unfold sortedProducts. by rewrite H.
Qed.

(** X20.  Sorted by price or by quantity, the list is in order from
    every product to every later one: non-decreasing when the direction
    is ascending, non-increasing when it is descending. *)
Theorem sortedProducts_by_number_is_ordered localeCompare ps direction sel :
  StronglySorted (in_order direction price)
    (sortedProducts localeCompare (mkState ps ByPrice direction sel)) /\
  StronglySorted (in_order direction qty)
    (sortedProducts localeCompare (mkState ps ByQty direction sel)).
Proof.
  split; apply Array_sort_sorted; unfold compareProducts, in_order; simpl;
    destruct direction; intros a b;
    try (intros H%Qle_bool_iff; lra);
    try (intros H%Qle_bool_false; lra);
    intros c; lra.
Qed.

(** X21.  Sorted by name, the list is in the order of the collation, from
    every product to every later one, provided the collation is an order:
    swapping its arguments flips its sign, and it is transitive. *)
Theorem sortedProducts_by_name_is_ordered localeCompare ps direction sel :
  (forall a b, localeCompare b a == - localeCompare a b) ->
  (forall a b c,
     localeCompare a b <= 0 -> localeCompare b c <= 0 -> localeCompare a c <= 0) ->
  StronglySorted
    (fun a b =>
       match direction with
       | Asc => localeCompare (name a) (name b) <= 0
       | Desc => 0 <= localeCompare (name a) (name b)
       end)
    (sortedProducts localeCompare (mkState ps ByName direction sel)).
Proof.
  intros Hanti Htrans.
  apply Array_sort_sorted; unfold compareProducts; simpl; destruct direction.
  - intros a b H%Qle_bool_iff. lra.
  - intros a b H%Qle_bool_iff. lra.
  - intros a b H%Qle_bool_false. pose proof (Hanti (name a) (name b)). lra.
  - intros a b H%Qle_bool_false. pose proof (Hanti (name a) (name b)). lra.
  - intros a b c. apply Htrans.
  - intros a b c Hab Hbc.
    pose proof (Hanti (name a) (name b)). pose proof (Hanti (name b) (name c)).
    pose proof (Hanti (name a) (name c)).
    assert (localeCompare (name c) (name a) <= 0); [|lra].
    apply (Htrans _ (name b)); lra.
Qed.

Lemma by_length_flips a b : by_length b a == - by_length a b.
Proof.
  unfold by_length. rewrite <- inject_Z_opp. f_equiv. lia.
Qed.

Lemma by_length_transitive a b c :
  by_length a b <= 0 -> by_length b c <= 0 -> by_length a c <= 0.
Proof.
  unfold by_length. change 0 with (inject_Z 0). rewrite <- !Zle_Qle. lia.
Qed.

Lemma sortedProducts_by_name_is_ordered_witness :
  StronglySorted
    (fun a b => by_length (name a) (name b) <= 0)
    (sortedProducts by_length (mkState sampleProducts ByName Asc None)).
Proof.
  exact (sortedProducts_by_name_is_ordered by_length sampleProducts Asc None
           by_length_flips by_length_transitive).
Defined.

(** X22.  A list of products that is already in the order of the
    comparator, ties included, is returned as it is: sorting never moves
    a product past one it does not have to follow. *)
Theorem sortedProducts_keeps_an_ordered_list localeCompare state :
  Sorted (fun a b => compareProducts localeCompare state a b <= 0)
         (products state) ->
  sortedProducts localeCompare state = products state.
Proof. apply Array_sort_keeps_sorted. Qed.

Lemma sortedProducts_keeps_an_ordered_list_witness :
  sortedProducts by_length
    (mkState [mkProduct "2" "Mouse" (2999 # 100) 50;
              mkProduct "3" "Keyboard" (5999 # 100) 20;
              mkProduct "4" "Trackpad" (5999 # 100) 7;
              mkProduct "1" "Laptop" (99999 # 100) 5] ByPrice Asc None) =
    [mkProduct "2" "Mouse" (2999 # 100) 50;
     mkProduct "3" "Keyboard" (5999 # 100) 20;
     mkProduct "4" "Trackpad" (5999 # 100) 7;
     mkProduct "1" "Laptop" (99999 # 100) 5].
Proof.
  apply (sortedProducts_keeps_an_ordered_list by_length).
  repeat constructor; unfold compareProducts; simpl; unfold Qle; simpl; lia.
Defined.

End ProductListCoverage.

Section SelectionCoverage.

Import ProductListStore.

Lemma find_first {A} (f : A -> bool) (l : list A) (x : A) :
  List.find f l = Some x <->
  exists i,
    l !! i = Some x /\ f x = true /\
    forall j y, j < i -> l !! j = Some y -> f y = false.
Proof.
  induction l as [|a l IH]; simpl.
  - split; [done | by intros (i & Hi & _)].
  - destruct (f a) eqn:E.
    + split.
      * intros [= <-]. exists 0. split_and!; [done | done | lia].
      * intros (i & Hi & Hx & Hmin). destruct i as [|i]; [by injection Hi as -> |].
        specialize (Hmin 0 a ltac:(lia) eq_refl). congruence.
    + rewrite IH. split.
      * intros (i & Hi & Hx & Hmin). exists (S i). split_and!; [done | done |].
        intros [|j] y Hj Hy; [by injection Hy as <- |].
        apply (Hmin j); [lia | done].
      * intros (i & Hi & Hx & Hmin). destruct i as [|i].
        { injection Hi as ->. congruence. }
        exists i. split_and!; [done | done |].
        intros j y Hj Hy. apply (Hmin (S j)); [lia | done].
Qed.

(** X23.  [selectedProduct] is a product exactly when an id is selected,
    the id is not the empty string, and some product has it; it is then
    the first product of [products] with that id.  It is [null] when no
    id is selected, when the id is the empty string, and when no product
    has the id. *)
Theorem selectedProduct_is_the_first_with_the_id state :
  (forall p,
     selectedProduct state = Some p <->
     exists sel i,
       selectedProductId state = Some sel /\
       sel <> "" /\
       products state !! i = Some p /\
       id p = sel /\
       forall j q, j < i -> products state !! j = Some q -> id q <> sel) /\
  (selectedProduct state = None <->
   match selectedProductId state with
   | None => True
   | Some sel => sel = "" \/ forall q, q ∈ products state -> id q <> sel
   end).
Proof.
  unfold selectedProduct. split.
  - intros p. destruct (selectedProductId state) as [sel|].
    + destruct sel as [|c sel'] eqn:Esel; simpl.
      * split; [done|]. intros (s & i & [= <-] & Hne & _). done.
      * rewrite <- Esel. rewrite find_first. split.
        -- intros (i & Hi & Hid%String.eqb_eq & Hmin).
           exists sel, i. split_and!; [done | by rewrite Esel | done | done |].
           intros j q Hj Hq. by apply String.eqb_neq, (Hmin j).
        -- intros (s & i & [= <-] & _ & Hi & Hid & Hmin).
           exists i. split_and!; [done | by apply String.eqb_eq |].
           intros j q Hj Hq. by apply String.eqb_neq, (Hmin j).
    + split; [done|]. by intros (s & i & [=] & _).
  - destruct (selectedProductId state) as [sel|]; [|done].
    destruct sel as [|c sel'] eqn:Esel; simpl.
    + split; [by left | done].
    + rewrite <- Esel. split.
      * intros Hnone. right. intros q Hq%list_elem_of_In.
        by apply String.eqb_neq, (find_none _ _ Hnone q).
      * intros [Hempty | Hno]; [by rewrite Esel in Hempty|].
        destruct (List.find _ _) as [p|] eqn:E; [|done].
        apply find_some in E as [Hin Hid%String.eqb_eq].
        by apply list_elem_of_In, Hno in Hin.
Qed.

(** X24.  A selected product is one of the products shown: whenever
    [selectedProduct] is a product, it occurs in [sortedProducts], for any
    sort field, direction and collation. *)
Theorem selected_product_is_displayed localeCompare state p :
  selectedProduct state = Some p ->
  p ∈ sortedProducts localeCompare state.
Proof.
  unfold selectedProduct, sortedProducts. intros H.
  destruct (selectedProductId state) as [sel|]; [|done].
  destruct (truthy_string sel); [|done].
  apply find_some in H as [Hin _].
  rewrite Array_sort_perm. by apply list_elem_of_In.
Qed.

Lemma selected_product_is_displayed_witness :
  mkProduct "2" "Mouse" (QArith_base.Qmake 2999 100) (QArith_base.inject_Z 50)
    ∈ sortedProducts by_length (mkState sampleProducts ByQty Desc (Some "2")).
Proof.
  exact (selected_product_is_displayed by_length
           (mkState sampleProducts ByQty Desc (Some "2")) _ eq_refl).
Defined.

End SelectionCoverage.

(** ** Properties of the telemetry observer *)

Section TelemetryCoverage.

Import Telemetry.

Implicit Types (store : Store) (w : World) (o : Observer).

Lemma strict_eq_true (a b : value) : strict_eq a b = true <-> a = b.
Proof.
  destruct a, b; simpl; try (split; [done | congruence]); try done.
  - rewrite Bool.eqb_true_iff. split; congruence.
  - rewrite Z.eqb_eq. split; congruence.
  - rewrite String.eqb_eq. split; congruence.
Qed.

Lemma strict_eq_refl (a : value) : strict_eq a a = true.
Proof. by apply strict_eq_true. Qed.

Lemma prop_value_frame (p : prop) w w' :
  heap w = heap w' ->
  exists v, prop_value p w = (Normal v, w) /\ prop_value p w' = (Normal v, w').
Proof.
  intros Hh. destruct p; simpl; unfold read_signal, peek, ret; rewrite ?Hh; by eexists.
Qed.

Lemma read_prop_frame store k w w' v :
  heap w = heap w' ->
  read_prop store k w = (Normal v, w) ->
  read_prop store k w' = (Normal v, w').
Proof.
  unfold read_prop. intros Hh. destruct (obj_get k store) as [p|].
  - destruct (prop_value_frame p w w' Hh) as (v' & -> & ->). by intros [= ->].
  - destruct (inherited k); [by intros [= <-] | done].
Qed.

Lemma onSortChange_run store o w sb sd :
  read_prop store "sortBy" w = (Normal sb, w) ->
  read_prop store "sortDirection" w = (Normal sd, w) ->
  onSortChange store o w =
    (Normal
       (if strict_eq sb (lastSortBy o) && strict_eq sd (lastSortDirection o)
        then o
        else mkObserver sb sd
               (sent o ++ [("SORT_CHANGED",
                            mkSortChanged sb sd (lastSortBy o) (lastSortDirection o))])),
     w).
Proof.
  intros H1 H2. unfold onSortChange, bind. rewrite H1, H2.
  by destruct (strict_eq sb (lastSortBy o)), (strict_eq sd (lastSortDirection o)).
Qed.

Lemma initializeTelemetry_run store w sb sd :
  read_prop store "sortBy" w = (Normal sb, w) ->
  read_prop store "sortDirection" w = (Normal sd, w) ->
  initializeTelemetry store w =
    (Normal (mkObserver sb sd []),
     mkWorld (heap w) (localStorage w) (console w) (S (effects w))).
Proof.
  intros R1 R2.
  unfold initializeTelemetry, bind at 1. rewrite R1.
  unfold bind at 1. rewrite R2. unfold bind at 1. unfold effect, ret at 1.
  rewrite (onSortChange_run store _ _ sb sd);
    [| by eapply read_prop_frame; [|exact R1]
     | by eapply read_prop_frame; [|exact R2]].
  simpl. by rewrite !strict_eq_refl.
Qed.

(** X25.  On a store that has the two sort signals, [initializeTelemetry]
    registers one effect and sends no event: the first run of the
    callback finds the values it was initialised with. *)
Theorem initializeTelemetry_sends_nothing store p1 p2 w :
  obj_get "sortBy" store = Some p1 ->
  obj_get "sortDirection" store = Some p2 ->
  exists sb sd,
    read_prop store "sortBy" w = (Normal sb, w) /\
    read_prop store "sortDirection" w = (Normal sd, w) /\
    initializeTelemetry store w =
      (Normal (mkObserver sb sd []),
       mkWorld (heap w) (localStorage w) (console w) (S (effects w))).
Proof.
  intros H1 H2.
  destruct (prop_value_pure p1 w) as [sb Hsb].
  destruct (prop_value_pure p2 w) as [sd Hsd].
  assert (read_prop store "sortBy" w = (Normal sb, w)) as R1.
  { unfold read_prop. by rewrite H1. }
  assert (read_prop store "sortDirection" w = (Normal sd, w)) as R2.
  { unfold read_prop. by rewrite H2. }
  exists sb, sd. split; [done|]. split; [done|].
  by apply initializeTelemetry_run.
Qed.

Lemma initializeTelemetry_sends_nothing_witness :
  initializeTelemetry (store_of controls_config 0)
      (createStore controls_config world0).2 =
    (Normal (mkObserver (VStr "name") (VStr "asc") []),
     mkWorld [VStr "name"; VStr "asc"; VNull] (localStorage world0) [] 1).
Proof.
  destruct (initializeTelemetry_sends_nothing (store_of controls_config 0)
              (PSignal 0) (PSignal 1) (createStore controls_config world0).2
              eq_refl eq_refl) as (sb & sd & R1 & R2 & H).
  injection R1 as <-. injection R2 as <-. exact H.
Defined.

(** X26.  One run of the callback sends one [SORT_CHANGED] event when the
    sort field or the direction differs from what the last run saw, with
    the new and the previous values, and none otherwise; after it the
    remembered values are the current ones, so that running it again
    while nothing changes sends nothing more. *)
Theorem onSortChange_reports_a_change_once store o w sb sd :
  read_prop store "sortBy" w = (Normal sb, w) ->
  read_prop store "sortDirection" w = (Normal sd, w) ->
  exists o',
    onSortChange store o w = (Normal o', w) /\
    lastSortBy o' = sb /\
    lastSortDirection o' = sd /\
    sent o' =
      sent o ++
      (if strict_eq sb (lastSortBy o) && strict_eq sd (lastSortDirection o)
       then []
       else [("SORT_CHANGED",
              mkSortChanged sb sd (lastSortBy o) (lastSortDirection o))]) /\
    onSortChange store o' w = (Normal o', w).
Proof.
  intros R1 R2. eexists. split; [by apply onSortChange_run|].
  destruct (strict_eq sb (lastSortBy o)) eqn:E1;
    destruct (strict_eq sd (lastSortDirection o)) eqn:E2; simpl.
  - apply strict_eq_true in E1, E2. split_and!; [done | done | by rewrite app_nil_r |].
    rewrite (onSortChange_run store o w sb sd) by done.
    by rewrite <- E1, <- E2, !strict_eq_refl.
  - split_and!; [done | done | done |].
    rewrite (onSortChange_run store _ w sb sd) by done. simpl.
    by rewrite !strict_eq_refl.
  - split_and!; [done | done | done |].
    rewrite (onSortChange_run store _ w sb sd) by done. simpl.
    by rewrite !strict_eq_refl.
  - split_and!; [done | done | done |].
    rewrite (onSortChange_run store _ w sb sd) by done. simpl.
    by rewrite !strict_eq_refl.
Qed.

Lemma onSortChange_reports_a_change_once_witness :
  exists o',
    onSortChange (store_of controls_config 0)
        (mkObserver (VStr "name") (VStr "asc") [])
        (mkWorld [VStr "price"; VStr "asc"; VNull] (localStorage world0) [] 1) =
      (Normal o', mkWorld [VStr "price"; VStr "asc"; VNull] (localStorage world0) [] 1) /\
    sent o' =
      [("SORT_CHANGED",
        mkSortChanged (VStr "price") (VStr "asc") (VStr "name") (VStr "asc"))].
Proof.
  destruct (onSortChange_reports_a_change_once (store_of controls_config 0)
              (mkObserver (VStr "name") (VStr "asc") [])
              (mkWorld [VStr "price"; VStr "asc"; VNull] (localStorage world0) [] 1)
              (VStr "price") (VStr "asc") eq_refl eq_refl)
    as (o' & Hrun & _ & _ & Hsent & _).
  exists o'. split; [exact Hrun | exact Hsent].
Defined.

Lemma read_prop_field config base i k v0 w1 :
  valid config = true ->
  initialState config !! i = Some (k, v0) ->
  reserved k = false ->
  read_prop (store_of config base) k w1 = (Normal (peek (base + i) w1), w1).
Proof.
  intros Hv Hi Hr. pose proof (valid_parts _ Hv) as (Hnd & _).
  unfold read_prop. rewrite store_of_other by done. simpl.
  erewrite fresh_cells_lookup; [done | by apply well_formed_NoDup | done].
Qed.

(** X27.  From the store to the event: on the store of a valid
    configuration with the two sort signals and the action [setSortBy],
    after [initializeTelemetry], calling the action with a value other
    than the current sort field makes the next run of the callback send
    exactly one event, carrying the new field, the initial field as the
    previous one, and the unchanged direction twice. *)
Theorem sort_change_through_the_store_is_reported
    Object_method config acts nm i j sb0 sd0 v w store w' :
  valid config = true ->
  actions config = Some acts ->
  obj_get nm acts = Some setSortBy ->
  initialState config !! i = Some ("sortBy", sb0) ->
  initialState config !! j = Some ("sortDirection", sd0) ->
  createStore config w = (Normal store, w') ->
  strict_eq v sb0 = false ->
  exists o0 w1 w2 o1,
    initializeTelemetry store w' = (Normal o0, w1) /\
    sent o0 = [] /\
    store_action Object_method store nm [v] w1 = (Normal VUndefined, w2) /\
    onSortChange store o0 w2 = (Normal o1, w2) /\
    sent o1 = [("SORT_CHANGED", mkSortChanged v sd0 sb0 sd0)].
Proof.
  intros Hv Ha Hn Hi Hj Hrun Hne.
  pose proof (valid_parts _ Hv) as (Hnd & _).
  destruct (createStore_valid_inv _ _ _ _ Hv Hrun) as [-> ->].
  set (base := length (heap w)).
  set (w' := set_heap (heap w ++ (initialState config).*2) w).
  set (w1 := mkWorld (heap w') (localStorage w') (console w') (S (effects w'))).
  set (w2 := (write_signal (base + i) v w1).2).
  assert (i <> j) as Hij.
  { intros ->. rewrite Hi in Hj. done. }
  assert (base + i < length (heap w1)) as Hlt.
  { apply lookup_lt_Some in Hi. unfold w1, w', base. simpl.
    rewrite length_app, length_fmap. lia. }
  assert (peek (base + i) w' = sb0) as P1 by by eapply peek_fresh.
  assert (peek (base + j) w' = sd0) as P2 by by eapply peek_fresh.
  eexists (mkObserver sb0 sd0 []), w1, w2, _. split.
  { apply initializeTelemetry_run.
    - rewrite (read_prop_field config base i "sortBy" sb0) by done. by rewrite P1.
    - rewrite (read_prop_field config base j "sortDirection" sd0) by done.
      by rewrite P2. }
  split; [done|]. split.
  { rewrite (store_action_setField Object_method config base acts nm "sortBy"
               (base + i)); [done..|].
    eapply fresh_cells_lookup; [by apply well_formed_NoDup | done]. }
  split.
  { apply (onSortChange_run _ _ _ v sd0).
    - rewrite (read_prop_field config base i "sortBy" sb0) by done.
      do 2 f_equal. by apply peek_write.
    - rewrite (read_prop_field config base j "sortDirection" sd0) by done.
      do 2 f_equal. unfold w2. rewrite peek_write_ne by lia. exact P2. }
  simpl. by rewrite Hne.
Qed.

Lemma sort_change_through_the_store_is_reported_witness :
  exists o0 w1 w2 o1,
    initializeTelemetry (store_of controls_config 0)
        (createStore controls_config world0).2 = (Normal o0, w1) /\
    sent o0 = [] /\
    store_action no_method (store_of controls_config 0) "setSortBy" [VStr "qty"] w1 =
      (Normal VUndefined, w2) /\
    onSortChange (store_of controls_config 0) o0 w2 = (Normal o1, w2) /\
    sent o1 =
      [("SORT_CHANGED",
        mkSortChanged (VStr "qty") (VStr "asc") (VStr "name") (VStr "asc"))].
Proof.
  exact (sort_change_through_the_store_is_reported no_method controls_config
           productListActions "setSortBy" 0 1 (VStr "name") (VStr "asc")
           (VStr "qty") world0 (store_of controls_config 0)
           (createStore controls_config world0).2
           eq_refl eq_refl eq_refl eq_refl eq_refl eq_refl eq_refl).
Defined.

End TelemetryCoverage.

Section HookCoverage.

(** X28.  [createStore] never calls [onStoreCreated]: its outcome is the
    same whatever hook the configuration carries, and it registers no
    effect and leaves the storage and the console as they were.  The
    persistence wiring of a configuration returned by the middleware only
    happens when the hook is called by someone else. *)
Theorem createStore_never_runs_the_hook (config : StoreConfig)
    (hook : option (Store -> M unit)) (w : World) :
  createStore (mkConfig (initialState config) (derived config)
                        (actions config) hook) w =
    createStore config w /\
  effects (createStore config w).2 = effects w /\
  localStorage (createStore config w).2 = localStorage w /\
  console (createStore config w).2 = console w.
Proof.
  split; [done|].
  destruct (createStore_run config w) as (sigs & _ & ->). done.
Qed.

End HookCoverage.
